(** * jpath: a path-expression accessor for JSON-like trees

    Shallow embedding of [src/jpath/__init__.py] (functions [jpath] and
    [jxpath], the three compiled regular expressions and the Python
    built-ins they rely on), followed by the properties of the evaluator.

    Modelling boundary.
    - Tree values are Python objects built from [None], [bool], [int],
      [str], [list] and [dict] with [str] or [int] keys.  Floats and
      user-defined classes are outside the model.
    - Strings are sequences of ASCII characters; a character above 127 is
      classified as neither digit, word character nor white space.
    - [int(s)] has no limit on the number of digits. *)

From Stdlib Require Import String Ascii List ZArith Bool Lia.
Import ListNotations.

Open Scope string_scope.
Open Scope Z_scope.

(** ** Python values *)

(** Dictionary keys: the source reads dictionaries through [str] and
    [int] keys only ([k(elem)] with [k] in [keytypes], and subscripts). *)
Inductive key : Type :=
| KStr (s : string)
| KInt (z : Z).

(** A dictionary is kept as an association list in insertion order;
    read access returns the first binding of the key. *)
#[warning="-register-all"]
Inductive value : Type :=
| VNone
| VBool (b : bool)
| VInt (z : Z)
| VStr (s : string)
| VList (l : list value)
| VDict (kvs : list (key * value)).

(** The exceptions the evaluator can meet. *)
Inductive exn : Type :=
| IndexError
| KeyError
| TypeError
| ValueError.

(** A Python expression either yields a value or raises. *)
Inductive result (A : Type) : Type :=
| Ok (a : A)
| Raise (e : exn).
Arguments Ok {A} a.
Arguments Raise {A} e.

Definition key_eqb (a b : key) : bool :=
  match a, b with
  | KStr x, KStr y => String.eqb x y
  | KInt x, KInt y => Z.eqb x y
  | _, _ => false
  end.

Fixpoint dict_get {A : Type} (kvs : list (key * A)) (k : key) : option A :=
  match kvs with
  | [] => None
  | (k', v) :: rest => if key_eqb k' k then Some v else dict_get rest k
  end.

(** [a == b] on tree values.  [bool] is a subclass of [int], so
    [True == 1]; lists compare element by element; dictionaries compare
    by size and by the value bound to each key. *)
Fixpoint py_eq (a b : value) {struct a} : bool :=
  match a, b with
  | VNone, VNone => true
  | VBool x, VBool y => Bool.eqb x y
  | VBool x, VInt y => Z.eqb (Z.b2z x) y
  | VInt x, VBool y => Z.eqb x (Z.b2z y)
  | VInt x, VInt y => Z.eqb x y
  | VStr x, VStr y => String.eqb x y
  | VList xs, VList ys =>
      (fix go (xs ys : list value) {struct xs} : bool :=
         match xs, ys with
         | [], [] => true
         | x :: xs', y :: ys' => py_eq x y && go xs' ys'
         | _, _ => false
         end) xs ys
  | VDict xs, VDict ys =>
      Nat.eqb (List.length xs) (List.length ys) &&
      (fix go (xs : list (key * value)) {struct xs} : bool :=
         match xs with
         | [] => true
         | (k, v) :: xs' =>
             match dict_get ys k with
             | Some w => py_eq v w
             | None => false
             end && go xs'
         end) xs
  | _, _ => false
  end.

(** [isinstance(obj, (list, dict))] *)
Definition is_container (v : value) : bool :=
  match v with
  | VList _ | VDict _ => true
  | _ => false
  end.

(** Position of index [i] in a sequence of [n] items: negative indices
    count from the end. *)
Definition seq_index (n : nat) (i : Z) : option nat :=
  let j := if i <? 0 then i + Z.of_nat n else i in
  if (0 <=? j) && (j <? Z.of_nat n) then Some (Z.to_nat j) else None.

Fixpoint string_nth (s : string) (n : nat) : option ascii :=
  match s, n with
  | EmptyString, _ => None
  | String c _, O => Some c
  | String _ s', S n' => string_nth s' n'
  end.

(** [o[k]]: the subscription the evaluator performs at every step. *)
Definition index (o : value) (k : key) : result value :=
  match o with
  | VDict kvs =>
      match dict_get kvs k with
      | Some v => Ok v
      | None => Raise KeyError
      end
  | VList l =>
      match k with
      | KInt i =>
          match seq_index (List.length l) i with
          | Some n =>
              match nth_error l n with
              | Some v => Ok v
              | None => Raise IndexError
              end
          | None => Raise IndexError
          end
      | KStr _ => Raise TypeError
      end
  | VStr s =>
      match k with
      | KInt i =>
          match seq_index (String.length s) i with
          | Some n =>
              match string_nth s n with
              | Some c => Ok (VStr (String c EmptyString))
              | None => Raise IndexError
              end
          | None => Raise IndexError
          end
      | KStr _ => Raise TypeError
      end
  | VNone | VBool _ | VInt _ => Raise TypeError
  end.

(** ** Character classes of the regular expressions *)

Definition in_range (lo hi : nat) (c : ascii) : bool :=
  let n := nat_of_ascii c in Nat.leb lo n && Nat.leb n hi.

(** [\d] *)
Definition is_digit (c : ascii) : bool := in_range 48 57 c.

(** [\w] *)
Definition is_word (c : ascii) : bool :=
  is_digit c || in_range 65 90 c || in_range 97 122 c || Ascii.eqb c "_".

(** [\s] *)
Definition is_space (c : ascii) : bool :=
  in_range 9 13 c || in_range 28 32 c.

(** The white space [int] strips from an ASCII string: tab, newline,
    vertical tab, form feed, carriage return and space. *)
Definition is_int_space (c : ascii) : bool :=
  in_range 9 13 c || Ascii.eqb c " ".

(** The double quote character (code 34). *)
Definition dquote : ascii := Ascii false true false false false true false false.

Definition is_quote (c : ascii) : bool :=
  Ascii.eqb c "'" || Ascii.eqb c dquote.

(** ** Built-ins: [int(s)], [str.split] *)

Definition digit_val (c : ascii) : Z := Z.of_nat (nat_of_ascii c - 48).

Fixpoint drop_while (p : ascii -> bool) (s : string) : string :=
  match s with
  | EmptyString => EmptyString
  | String c s' => if p c then drop_while p s' else s
  end.

(** Digits of an integer literal after the sign: one or more digits,
    single underscores allowed between two digits, then only white
    space.  [acc] is the value read so far and [prev] tells whether the
    previous character was a digit. *)
Fixpoint int_digits (acc : Z) (prev : bool) (s : string) : option Z :=
  match s with
  | EmptyString => if prev then Some acc else None
  | String c s' =>
      if is_digit c then int_digits (10 * acc + digit_val c) true s'
      else if Ascii.eqb c "_" then
        match s' with
        | String d _ => if prev && is_digit d then int_digits acc false s' else None
        | EmptyString => None
        end
      else if is_int_space c && prev then
        match drop_while is_int_space s' with
        | EmptyString => Some acc
        | _ => None
        end
      else None
  end.

(** [int(s)] for a string argument: [None] stands for [ValueError]. *)
Definition py_int (s : string) : option Z :=
  match drop_while is_int_space s with
  | EmptyString => None
  | String c s' =>
      if Ascii.eqb c "-" then option_map Z.opp (int_digits 0 false s')
      else if Ascii.eqb c "+" then int_digits 0 false s'
      else int_digits 0 false (String c s')
  end.

Fixpoint is_prefix (p s : string) : bool :=
  match p, s with
  | EmptyString, _ => true
  | String a p', String b s' => Ascii.eqb a b && is_prefix p' s'
  | String _ _, EmptyString => false
  end.

(** Put [c] in front of the first piece. *)
Definition push (c : ascii) (l : list string) : list string :=
  match l with
  | [] => [String c EmptyString]
  | h :: t => String c h :: t
  end.

(** Left-to-right scan of [s.split(sep)] for a non-empty [sep]; [skip]
    counts the characters of a separator still to be passed over. *)
Fixpoint split_go (sep : string) (skip : nat) (s : string) : list string :=
  match s with
  | EmptyString => [EmptyString]
  | String c s' =>
      match skip with
      | S k => split_go sep k s'
      | O =>
          if is_prefix sep s
          then EmptyString :: split_go sep (String.length sep - 1) s'
          else push c (split_go sep 0 s')
      end
  end.

(** [s.split(sep)]: the empty separator raises [ValueError]. *)
Definition py_split (s sep : string) : result (list string) :=
  match sep with
  | EmptyString => Raise ValueError
  | _ => Ok (split_go sep 0 s)
  end.


(** ** The compiled regular expressions *)

(** [subscript_re]: one or more consecutive bracket groups, each of them
    [[digits]], [["key"]] or [['key']], where the key is any run, possibly
    empty, of word characters and white space. *)

Definition is_key_char (c : ascii) : bool := is_word c || is_space c.

Fixpoint take_while_len (p : ascii -> bool) (s : string) : nat :=
  match s with
  | EmptyString => O
  | String c s' => if p c then S (take_while_len p s') else O
  end.

Fixpoint string_drop (n : nat) (s : string) : string :=
  match n, s with
  | O, _ => s
  | S n', String _ s' => string_drop n' s'
  | S _, EmptyString => EmptyString
  end.

Fixpoint string_take (n : nat) (s : string) : string :=
  match n, s with
  | O, _ => EmptyString
  | S n', String c s' => String c (string_take n' s')
  | S _, EmptyString => EmptyString
  end.

Definition head_is (c : ascii) (s : string) : bool :=
  match s with
  | String x _ => Ascii.eqb x c
  | EmptyString => false
  end.

(** Length of the bracket group at the head of [s]; [O] when [s] does not
    start with a group. *)
Definition group_len (s : string) : nat :=
  match s with
  | String b (String c r) =>
      if negb (Ascii.eqb b "[") then O
      else if is_digit c then
        let n := take_while_len is_digit r in
        if head_is "]" (string_drop n r) then (n + 3)%nat else O
      else if is_quote c then
        let n := take_while_len is_key_char r in
        match string_drop n r with
        | String q rest =>
            if Ascii.eqb q c && head_is "]" rest then (n + 4)%nat else O
        | EmptyString => O
        end
      else O
  | _ => O
  end.

(** Length of the longest run of groups at the head of [s]; every group
    takes at least three characters, so [fuel = length s] never runs
    out. *)
Fixpoint run_len_fuel (fuel : nat) (s : string) : nat :=
  match fuel with
  | O => O
  | S f =>
      match group_len s with
      | O => O
      | n => (n + run_len_fuel f (string_drop n s))%nat
      end
  end.

Definition run_len (s : string) : nat := run_len_fuel (String.length s) s.

(** [subscript_re.search(elem)]: [Some] of the text of the leftmost run
    ([subscripts.group()]), or [None]. *)
Fixpoint subscript_search (s : string) : option string :=
  match s with
  | EmptyString => None
  | String _ s' =>
      match run_len s with
      | O => subscript_search s'
      | n => Some (string_take n s)
      end
  end.

(** [subscript_re.sub] with the empty replacement: every run is removed. *)
Fixpoint subscript_sub_go (skip : nat) (s : string) : string :=
  match s with
  | EmptyString => EmptyString
  | String c s' =>
      match skip with
      | S k => subscript_sub_go k s'
      | O =>
          match run_len s with
          | O => String c (subscript_sub_go 0 s')
          | S n => subscript_sub_go n s'
          end
      end
  end.

Definition subscript_sub (s : string) : string := subscript_sub_go 0 s.

Definition is_bracket (c : ascii) : bool := Ascii.eqb c "[" || Ascii.eqb c "]".

(** [brackets_re.split(s)] *)
Fixpoint brackets_split (s : string) : list string :=
  match s with
  | EmptyString => [EmptyString]
  | String c s' =>
      if is_bracket c then EmptyString :: brackets_split s'
      else push c (brackets_split s')
  end.

Definition nonempty (s : string) : bool :=
  match s with
  | EmptyString => false
  | _ => true
  end.

(** [[ i for i in brackets_re.split(subscripts.group()) if i ]] *)
Definition subscript_tokens (group : string) : list string :=
  filter nonempty (brackets_split group).

(** [$]: the end of the string, or just before a final newline. *)
Definition at_eol (s : string) : bool :=
  match s with
  | EmptyString => true
  | String c EmptyString => Ascii.eqb c (ascii_of_nat 10)
  | _ => false
  end.

(** [apex_re.sub] with the empty replacement: a quote character is removed when it is the
    first character of the string or stands at [$]. *)
Fixpoint apex_sub_go (first : bool) (s : string) : string :=
  match s with
  | EmptyString => EmptyString
  | String c s' =>
      if is_quote c && (first || at_eol s') then apex_sub_go false s'
      else String c (apex_sub_go false s')
  end.

Definition apex_sub (s : string) : string := apex_sub_go true s.


(** ** The evaluator *)

(** The members of [keytypes]: the constructors [str] and [int] used as
    converters of the element text. *)
Inductive keytype : Type :=
| KT_str
| KT_int.

(** [k(elem)] *)
Definition convert (k : keytype) (elem : string) : result key :=
  match k with
  | KT_str => Ok (KStr elem)
  | KT_int =>
      match py_int elem with
      | Some z => Ok (KInt z)
      | None => Raise ValueError
      end
  end.

(** The key of a subscript token: [int(subscript)], and when that raises,
    [apex_re.sub] applied to [str(subscript)]. *)
Definition subscript_key (subscript : string) : key :=
  match py_int subscript with
  | Some z => KInt z
  | None => KStr (apex_sub subscript)
  end.

(** State of the loop over the elements: it either went through with the
    cursor [obj], or an exception left the [try] block while the cursor
    was [obj]. *)
Inductive outcome : Type :=
| Normal (obj : value)
| Raised (e : exn) (obj : value).

(** [except (IndexError, KeyError, TypeError)] *)
Definition is_lookup_error (e : exn) : bool :=
  match e with
  | IndexError | KeyError | TypeError => true
  | ValueError => false
  end.

Section Evaluator.

Variables (source : value) (keytypes : list keytype) (null : value).

(** The object a step subscripts: [obj] when [obj != null], otherwise
    [source]. *)
Definition cursor (obj : value) : value :=
  if py_eq obj null then source else obj.

(** (0.1) the loop over the subscripts of an element. *)
Fixpoint apply_subscripts (obj : value) (scs : list string) : outcome :=
  match scs with
  | [] => Normal obj
  | subscript :: rest =>
      let sc := subscript_key subscript in
      if negb (is_container obj) then Raised TypeError obj
      else
        match index (cursor obj) sc with
        | Ok v => apply_subscripts v rest
        | Raise e => Raised e obj
        end
  end.

(** One turn of [for k in keytypes]: the body of the inner [try] and
    its two handlers. *)
Definition try_keytype (elem : string) (obj : value) (k : keytype) : value :=
  match convert k elem with
  | Raise _ => obj
  | Ok key =>
      match index (cursor obj) key with
      | Ok v => v
      | Raise IndexError | Raise KeyError => null
      | Raise _ => obj
      end
  end.

(** [if not keytypes: keytypes = [ str, int ]] *)
Definition effective_keytypes : list keytype :=
  match keytypes with
  | [] => [KT_str; KT_int]
  | _ => keytypes
  end.

(** The body of [for elem in elems] for a non-empty element. *)
Definition do_elem (obj : value) (elem : string) : outcome :=
  match subscript_search elem with
  | Some group =>
      let root := subscript_sub elem in
      let rooted :=
        if nonempty root then index (cursor obj) (KStr root)
        else Ok (cursor obj) in
      match rooted with
      | Raise e => Raised e obj
      | Ok o => apply_subscripts o (subscript_tokens group)
      end
  | None =>
      if negb (is_container obj) then Raised TypeError obj
      else Normal (fold_left (try_keytype elem) effective_keytypes obj)
  end.

(** [for elem in elems], left at the first exception. *)
Fixpoint run_elems (obj : value) (elems : list string) : outcome :=
  match elems with
  | [] => Normal obj
  | elem :: rest =>
      if nonempty elem then
        match do_elem obj elem with
        | Normal o => run_elems o rest
        | Raised e o => Raised e o
        end
      else run_elems obj rest
  end.

(** The two handlers of the outer [try] and [return obj]. *)
Definition finish (r : outcome) : value :=
  match r with
  | Normal obj => obj
  | Raised e obj => if is_lookup_error e then null else obj
  end.

End Evaluator.

(** [jpath(source, path, keytypes, null, sep)] *)
Definition jpath (source : value) (path : string) (keytypes : list keytype)
    (null : value) (sep : string) : result value :=
  if nonempty path then
    match py_split path sep with
    | Raise e => Raise e
    | Ok elems => Ok (finish null (run_elems source keytypes null null elems))
    end
  else Ok source.

(** Default [nil] value. *)
Definition nil : value := VDict [(KStr "result", VStr "error")].

Definition default_keytypes : list keytype := [KT_str; KT_int].
Definition default_sep : string := "->".

(** [jxpath(source, path, keytypes, null)]: the body passes [null=nil]. *)
Definition jxpath (source : value) (path : string) (keytypes : list keytype)
    (null : value) : result value :=
  jpath source path keytypes nil "/".

(** ** The trees and the test cases of the module *)

(** The text [q ++ k ++ q] of a quoted token and the text of the bracket
    group around it; with [dquote] they write the double-quoted
    subscripts of the paths below. *)
Definition quoted (q : ascii) (k : string) : string :=
  String q (k ++ String q EmptyString).

Definition quoted_group (q : ascii) (k : string) : string :=
  String "[" (String q (k ++ String q (String "]" EmptyString))).

Definition d : value :=
  VDict [(KStr "test", VDict
    [(KStr "path", VList [VDict
       [(KStr "to", VList [VDict [(KStr "object5", VInt 1)];
                           VList [VInt 0; VInt 1; VInt 2]]);
        (KStr "in", VList [VDict
           [(KStr "arrays", VList [VDict
              [(KStr "test", VInt 7); (KStr (quoted dquote EmptyString), VInt 42)]])]])]]);
     (KStr "inner", VNone)])].

Definition a : value :=
  VList [VList [VList [VInt 0; VInt 0; VInt 0];
                VList [VInt 1; VInt 2; VInt 3];
                VList [VInt 0; VInt 0; VInt 0]];
         VList [VList [VInt 1; VInt 0; VInt 0];
                VList [VInt 0; VInt 1; VInt 0];
                VList [VInt 0; VInt 0; VInt 1]]].

(** [x[k1][k2]...], the right-hand column of the test cases. *)
Fixpoint index_path (x : value) (ks : list key) : result value :=
  match ks with
  | [] => Ok x
  | k :: ks' =>
      match index x k with
      | Ok v => index_path v ks'
      | Raise e => Raise e
      end
  end.

Definition testcases : list (value * string * result value) :=
  [ (d, "test->path[0]->to[0]->object5",
      index_path d [KStr "test"; KStr "path"; KInt 0; KStr "to"; KInt 0; KStr "object5"]);
    (d, "test->path[0]->to[0]->object5[7]", Ok nil);
    (d, "test->path[0]->to[0]->object5[7][0]", Ok nil);
    (d, "test->path[0]->to[0]->object5->abc", Ok nil);
    (d, "test->path[0]->to[1][2]",
      index_path d [KStr "test"; KStr "path"; KInt 0; KStr "to"; KInt 1; KInt 2]);
    (d, "test->inner", index_path d [KStr "test"; KStr "inner"]);
    (d, "test['path']", index_path d [KStr "test"; KStr "path"]);
    (d, "test[path]", Ok nil);
    (d, "test->path[0]->in[0]->arrays[0]['test abc']", Ok nil);
    (d, "test->path[0]->in[0]->arrays[0]" ++ quoted_group dquote EmptyString, Ok nil);
    (d, "test->path[0]->in[0]->arrays[1]", Ok nil);
    (d, "test->path[0]->in[0]->arrays[0]->test",
      index_path d [KStr "test"; KStr "path"; KInt 0; KStr "in"; KInt 0; KStr "arrays"; KInt 0; KStr "test"]);
    (d, "['test']['path'][0]" ++ quoted_group dquote "to" ++ "[0]"
          ++ quoted_group dquote "object5",
      index_path d [KStr "test"; KStr "path"; KInt 0; KStr "to"; KInt 0; KStr "object5"]);
    (d, "['test']['path'][0]" ++ quoted_group dquote "to" ++ "[0]",
      index_path d [KStr "test"; KStr "path"; KInt 0; KStr "to"; KInt 0]);
    (d, "['test']['path'][0]['to'][5]", Ok nil);
    (d, "test->path[5]->in[0]->arrays[0]['test abc']", Ok nil);
    (a, "[0][1][1]", index_path a [KInt 0; KInt 1; KInt 1]);
    (a, "0->1->1", index_path a [KInt 0; KInt 1; KInt 1]);
    (a, "0->1", index_path a [KInt 0; KInt 1]);
    (a, "9", Ok nil) ].

Definition testcases_jx : list (value * string * result value) :=
  [ (d, "//test/path[0]/in[0]/arrays[0]",
      index_path d [KStr "test"; KStr "path"; KInt 0; KStr "in"; KInt 0; KStr "arrays"; KInt 0]);
    (d, "//test/path[0]/in[0]/arrays[0]/test",
      index_path d [KStr "test"; KStr "path"; KInt 0; KStr "in"; KInt 0; KStr "arrays"; KInt 0; KStr "test"]);
    (d, "//test/path[0]/to[0]",
      index_path d [KStr "test"; KStr "path"; KInt 0; KStr "to"; KInt 0]) ].


(** The tree of the concrete scenarios of the specification. *)
Definition spec_d : value :=
  VDict [(KStr "test", VDict
    [(KStr "path", VList [VDict
       [(KStr "to", VList [VDict [(KStr "object", VInt 1)];
                           VList [VInt 0; VInt 1; VInt 2]])]]);
     (KStr "inner", VNone)])].

(** ** Vocabulary of the statements *)

Fixpoint string_forallb (p : ascii -> bool) (s : string) : bool :=
  match s with
  | EmptyString => true
  | String c s' => p c && string_forallb p s'
  end.

(** [sub in s] *)
Fixpoint contains (sub s : string) : bool :=
  is_prefix sub s ||
  match s with
  | EmptyString => false
  | String _ s' => contains sub s'
  end.

(** A path element that holds neither separator. *)
Definition separator_free (e : string) : Prop :=
  contains "->" e = false /\ contains "/" e = false.

Definition is_ident_start (c : ascii) : bool :=
  in_range 65 90 c || in_range 97 122 c || Ascii.eqb c "_".

(** A simple identifier: a letter or underscore, then word characters. *)
Definition is_ident (s : string) : bool :=
  match s with
  | EmptyString => false
  | String c r => is_ident_start c && string_forallb is_word r
  end.

(** A string without ["-"]; such a string holds no separator ["->"]. *)
Definition dash_free (s : string) : bool :=
  string_forallb (fun c => negb (Ascii.eqb "-" c)) s.

(** Case analysis on the 256 characters. *)
Ltac by_char c :=
  destruct c as [[] [] [] [] [] [] [] []]; try discriminate; reflexivity.

(** Two cursors the evaluator cannot tell apart: the same value, or a
    value that [==] the sentinel next to the sentinel itself. *)
Definition sentinel_alike (null x y : value) : Prop :=
  x = y \/ (py_eq x null = true /\ y = null).

(** Two runs of the loop that end alike: with cursors that cannot be told
    apart, or with the same exception. *)
Definition outcome_alike (null : value) (r1 r2 : outcome) : Prop :=
  match r1, r2 with
  | Normal x, Normal y => sentinel_alike null x y
  | Raised e1 _, Raised e2 _ => e1 = e2
  | _, _ => False
  end.

(** No key of the tree, at any depth, holds a character of a separator
    (["-"], [">"] or ["/"]). *)
Definition is_separator_char (c : ascii) : bool :=
  Ascii.eqb c "-" || Ascii.eqb c ">" || Ascii.eqb c "/".

Definition key_separator_free (k : key) : bool :=
  match k with
  | KStr s => string_forallb (fun c => negb (is_separator_char c)) s
  | KInt _ => true
  end.

Fixpoint keys_separator_free (v : value) : bool :=
  match v with
  | VList l =>
      (fix go (l : list value) : bool :=
         match l with
         | [] => true
         | x :: l' => keys_separator_free x && go l'
         end) l
  | VDict kvs =>
      (fix go (kvs : list (key * value)) : bool :=
         match kvs with
         | [] => true
         | (k, x) :: kvs' =>
             key_separator_free k && keys_separator_free x && go kvs'
         end) kvs
  | _ => true
  end.

Definition is_list (v : value) : bool :=
  match v with
  | VList _ => true
  | _ => false
  end.

Definition all_pass (run : value -> string -> result value)
    (cases : list (value * string * result value)) : bool :=
  forallb (fun t =>
    match t with
    | (src, path, Ok expected) =>
        match run src path with
        | Ok got => py_eq got expected
        | Raise _ => false
        end
    | (_, _, Raise _) => false
    end) cases.

(** * The module [jdson]

    [src/jdson/__init__.py] is the earlier form of the accessor: the same
    loop with its own [subscript_re], no type check before a subscript and
    one handler, [except Exception: pass], around the whole loop. *)

(** ** [re.search] and [re.sub] for a pattern of the form [(group)+] *)

Section Regex.

(** Length of the bracket group at the head of a string, [O] for none. *)
Variable group : string -> nat.

Fixpoint re_run_fuel (fuel : nat) (s : string) : nat :=
  match fuel with
  | O => O
  | S f =>
      match group s with
      | O => O
      | n => (n + re_run_fuel f (string_drop n s))%nat
      end
  end.

Definition re_run (s : string) : nat := re_run_fuel (String.length s) s.

(** [re.search]: the text of the leftmost run, or [None]. *)
Fixpoint re_search (s : string) : option string :=
  match s with
  | EmptyString => None
  | String _ s' =>
      match re_run s with
      | O => re_search s'
      | n => Some (string_take n s)
      end
  end.

(** [re.sub] with the empty replacement. *)
Fixpoint re_sub_go (skip : nat) (s : string) : string :=
  match s with
  | EmptyString => EmptyString
  | String c s' =>
      match skip with
      | S k => re_sub_go k s'
      | O =>
          match re_run s with
          | O => String c (re_sub_go 0 s')
          | S n => re_sub_go n s'
          end
      end
  end.

Definition re_sub (s : string) : string := re_sub_go 0 s.

End Regex.

(** [source[obj]] where the subscript is itself a tree value: a list or a
    dictionary is unhashable and is no list index; [True] and [False] act
    as [1] and [0]; [None] is a key no tree of the model holds. *)
Definition index_value (o c : value) : result value :=
  match c with
  | VStr s => index o (KStr s)
  | VInt z => index o (KInt z)
  | VBool b => index o (KInt (Z.b2z b))
  | VNone =>
      match o with
      | VDict _ => Raise KeyError
      | _ => Raise TypeError
      end
  | VList _ | VDict _ => Raise TypeError
  end.

Module Jdson.

(** [subscript_re] of this module: the key between the quotes is one or
    more word characters. *)
Definition group_len (s : string) : nat :=
  match s with
  | String b (String c r) =>
      if negb (Ascii.eqb b "[") then O
      else if is_digit c then
        let n := take_while_len is_digit r in
        if head_is "]" (string_drop n r) then (n + 3)%nat else O
      else if is_quote c then
        let n := take_while_len is_word r in
        match n, string_drop n r with
        | S _, String q rest =>
            if Ascii.eqb q c && head_is "]" rest then (n + 4)%nat else O
        | _, _ => O
        end
      else O
  | _ => O
  end.

Definition subscript_search : string -> option string := re_search group_len.
Definition subscript_sub : string -> string := re_sub group_len.

(** The loop either went through with the cursor [obj], or an exception
    stopped it while the cursor was [obj]; the handler does not look at
    the exception. *)
Inductive outcome : Type :=
| Went (obj : value)
| Stopped (obj : value).

Section Evaluator.

Variables (source : value) (null : value).

(** The loop over the subscripts of an element:
    [obj = obj[sc] if obj != null else source[sc]]. *)
Fixpoint apply_subscripts (obj : value) (scs : list string) : outcome :=
  match scs with
  | [] => Went obj
  | subscript :: rest =>
      match index (cursor source null obj) (subscript_key subscript) with
      | Ok v => apply_subscripts v rest
      | Raise _ => Stopped obj
      end
  end.

(** The body of [for elem in elems] for a non-empty element.  An element
    without subscripts reaches [if not typelist], which reads a local
    variable before any assignment: [UnboundLocalError]. *)
Definition do_elem (obj : value) (elem : string) : outcome :=
  match subscript_search elem with
  | Some group =>
      let root := subscript_sub elem in
      let rooted :=
        if nonempty root then
          if negb (py_eq obj null) then index obj (KStr root)
          else index_value source obj
        else
          if py_eq obj null then Ok source
          else index obj (KStr root) in
      match rooted with
      | Raise _ => Stopped obj
      | Ok o => apply_subscripts o (subscript_tokens group)
      end
  | None => Stopped obj
  end.

Fixpoint run_elems (obj : value) (elems : list string) : outcome :=
  match elems with
  | [] => Went obj
  | elem :: rest =>
      if nonempty elem then
        match do_elem obj elem with
        | Went o => run_elems o rest
        | Stopped o => Stopped o
        end
      else run_elems obj rest
  end.

(** [except Exception: pass] and [return obj]. *)
Definition finish (r : outcome) : value :=
  match r with
  | Went obj => obj
  | Stopped obj => obj
  end.

End Evaluator.

(** [jdson(source, path, keytypes, null)]; [keytypes] is never read. *)
Definition jdson (source : value) (path : string) (keytypes : list keytype)
    (null : value) : value :=
  if nonempty path then
    finish (run_elems source null null (split_go "->" 0 path))
  else source.

(** The trees and the links of the module. *)
Definition d : value :=
  VDict [(KStr "test", VDict
    [(KStr "path", VList [VDict
       [(KStr "to", VList [VDict [(KStr "object", VInt 1)];
                           VList [VInt 0; VInt 1; VInt 2]]);
        (KStr "in", VList [VDict
           [(KStr "arrays", VList [VDict [(KStr "test", VInt 7)]])]])]]);
     (KStr "inner", VNone)])].

Definition a : value :=
  VList [VList [VList [VInt 0; VInt 0; VInt 0];
                VList [VInt 1; VInt 2; VInt 3];
                VList [VInt 0; VInt 0; VInt 0]];
         VList [VList [VInt 1; VInt 0; VInt 0];
                VList [VInt 0; VInt 1; VInt 0];
                VList [VInt 0; VInt 0; VInt 1]]].

Definition testlinks : list (value * string) :=
  [ (d, "test->path[0]->to[0]->object");
    (d, "test->path[0]->to[1][2]");
    (d, "test->inner");
    (d, "test->path[0]->in[0]->arrays[0]['test']");
    (d, "test->path[0]->in[0]->arrays[0]->test");
    (d, "['test']['path'][0]" ++ quoted_group dquote "to" ++ "[0]"
          ++ quoted_group dquote "object");
    (d, "['test']['path'][0]" ++ quoted_group dquote "to" ++ "[0]");
    (d, "['test']['path'][0]['to']");
    (a, "[0][1][1]");
    (a, "0->1->1");
    (a, "0->1");
    (a, "9") ].

End Jdson.

(** * Vocabulary of the further properties *)

(** A well-formed subscript: digits, or a key between two quotes. *)
Inductive token : Type :=
| TInt (ds : string)
| TStr (q : ascii) (k : string).

(** The text between the brackets. *)
Definition token_str (t : token) : string :=
  match t with
  | TInt ds => ds
  | TStr q k => quoted q k
  end.

(** The bracket group. *)
Definition token_text (t : token) : string :=
  match t with
  | TInt ds => String "[" (ds ++ String "]" EmptyString)
  | TStr q k => quoted_group q k
  end.

Fixpoint tokens_text (ts : list token) : string :=
  match ts with
  | [] => EmptyString
  | t :: rest => token_text t ++ tokens_text rest
  end.

(** Value of a string of decimal digits. *)
Fixpoint decimal_from (acc : Z) (ds : string) : Z :=
  match ds with
  | EmptyString => acc
  | String c r => decimal_from (10 * acc + digit_val c) r
  end.

Definition decimal (ds : string) : Z := decimal_from 0 ds.

Definition token_key (t : token) : key :=
  match t with
  | TInt ds => KInt (decimal ds)
  | TStr _ k => KStr k
  end.

Definition is_number (ds : string) : bool :=
  nonempty ds && string_forallb is_digit ds.

(** Tokens of [jpath]: the key is any run of word characters and white
    space. *)
Definition token_ok (t : token) : bool :=
  match t with
  | TInt ds => is_number ds
  | TStr q k => is_quote q && string_forallb is_key_char k
  end.

(** Tokens of [jdson]: the key is a non-empty run of word characters. *)
Definition word_token_ok (t : token) : bool :=
  match t with
  | TInt ds => is_number ds
  | TStr q k => is_quote q && nonempty k && string_forallb is_word k
  end.

(** The three shapes of a path element: a bare identifier, a bare
    number, and a name (possibly empty) followed by subscripts. *)
Inductive element : Type :=
| Name (name : string)
| Item (ds : string)
| Subscripted (name : string) (subs : list token).

Definition elem_text (e : element) : string :=
  match e with
  | Name n => n
  | Item ds => ds
  | Subscripted n ts => n ++ tokens_text ts
  end.

Definition elem_ok (e : element) : bool :=
  match e with
  | Name n => is_ident n
  | Item ds => is_number ds
  | Subscripted n ts =>
      string_forallb is_word n &&
      match ts with [] => false | _ => forallb token_ok ts end
  end.

(** One plain subscription [x[k]]; [Idx] is the subscription of an array
    by a bare number. *)
Inductive step : Type :=
| Key (k : key)
| Idx (n : Z).

Definition step_key (s : step) : key :=
  match s with
  | Key k => k
  | Idx n => KInt n
  end.

Definition step_fits (s : step) (x : value) : bool :=
  match s with
  | Key _ => true
  | Idx _ => is_list x
  end.

Definition name_steps (n : string) : list step :=
  if nonempty n then [Key (KStr n)] else [].

Definition elem_steps (e : element) : list step :=
  match e with
  | Name n => [Key (KStr n)]
  | Item ds => [Idx (decimal ds)]
  | Subscripted n ts => name_steps n ++ map (fun t => Key (token_key t)) ts
  end.

Definition path_steps (es : list element) : list step :=
  flat_map elem_steps es.

(** [x[k1][k2]...] read step by step, as long as every subscripted value
    is a list or a dictionary and, after the first step, differs from the
    sentinel.  [fresh] marks the first step. *)
Fixpoint access (null : value) (fresh : bool) (x : value) (steps : list step)
  : option value :=
  match steps with
  | [] => Some x
  | s :: rest =>
      if is_container x && (fresh || negb (py_eq x null)) && step_fits s x then
        match index x (step_key s) with
        | Ok y => access null false y rest
        | Raise _ => None
        end
      else None
  end.

(** The same reading without the type check, as [jdson] subscripts. *)
Fixpoint loose_access (null : value) (fresh : bool) (x : value) (ks : list key)
  : option value :=
  match ks with
  | [] => Some x
  | k :: rest =>
      if fresh || negb (py_eq x null) then
        match index x k with
        | Ok y => loose_access null false y rest
        | Raise _ => None
        end
      else None
  end.

(** [apply_subscripts] on keys instead of token texts. *)
Fixpoint apply_keys (source null obj : value) (ks : list key) : outcome :=
  match ks with
  | [] => Normal obj
  | k :: rest =>
      if negb (is_container obj) then Raised TypeError obj
      else
        match index (cursor source null obj) k with
        | Ok v => apply_keys source null v rest
        | Raise e => Raised e obj
        end
  end.

(** The cursor [obj] stands for the value [x]: before the first step the
    cursor is the sentinel and [x] is the tree, afterwards they are the
    same value. *)
Definition cursor_stands (source null : value) (fresh : bool) (obj x : value)
  : Prop :=
  if fresh then obj = null /\ x = source else obj = x.

(** Two elements with the same name and the same typed keys. *)
Definition same_keys (e1 e2 : element) : Prop :=
  match e1, e2 with
  | Name n1, Name n2 => n1 = n2
  | Item d1, Item d2 => d1 = d2
  | Subscripted n1 ts1, Subscripted n2 ts2 =>
      n1 = n2 /\ map token_key ts1 = map token_key ts2
  | _, _ => False
  end.

(** A string without ["/"]. *)
Definition slash_free (s : string) : bool :=
  string_forallb (fun c => negb (Ascii.eqb "/" c)) s.

(** A character of neither separator, and a string of such characters. *)
Definition is_plain (c : ascii) : bool :=
  negb (Ascii.eqb "-" c) && negb (Ascii.eqb "/" c).

Definition plain (s : string) : bool := string_forallb is_plain s.

(** Elements [jdson] can resolve: a chain of subscripts as first element,
    then elements with a name and subscripts. *)
Definition jdson_elem_ok (first : bool) (e : element) : bool :=
  match e with
  | Subscripted n ts =>
      string_forallb is_word n &&
      (if first then negb (nonempty n) else nonempty n) &&
      match ts with [] => false | _ => forallb word_token_ok ts end
  | _ => false
  end.

Fixpoint jdson_path_ok (first : bool) (es : list element) : bool :=
  match es with
  | [] => true
  | e :: rest => jdson_elem_ok first e && jdson_path_ok false rest
  end.

Definition path_keys (es : list element) : list key :=
  map step_key (path_steps es).

(** The values stored in a tree: the tree itself and whatever a
    subscription of a stored value yields. *)
Inductive reachable (source : value) : value -> Prop :=
| reach_root : reachable source source
| reach_step (x : value) (k : key) (y : value) :
    reachable source x -> index x k = Ok y -> reachable source y.

(** The sentinel, or a value stored in the tree. *)
Definition sentinel_or_stored (source null v : value) : Prop :=
  v = null \/ reachable source v.

(** * Properties *)

(** ** The test cases of the module hold in the embedding *)

Lemma testcases_pass :
  all_pass (fun src p => jpath src p default_keytypes nil default_sep) testcases = true.
Proof. vm_compute. reflexivity. Qed.

Lemma testcases_jx_pass :
  all_pass (fun src p => jxpath src p default_keytypes nil) testcases_jx = true.
Proof. vm_compute. reflexivity. Qed.

(** ** Splitting a joined path *)

Section Split.

Lemma split_arrow_single (e : string) :
  contains "->" e = false -> split_go "->" 0 e = [e].
Proof.
  induction e as [|c e IH]; intros H.
  - reflexivity.
  - cbn [contains] in H. apply orb_false_iff in H as [Hp Hc].
    cbn [split_go]. rewrite Hp, (IH Hc). reflexivity.
Qed.

Lemma split_slash_single (e : string) :
  contains "/" e = false -> split_go "/" 0 e = [e].
Proof.
  induction e as [|c e IH]; intros H.
  - reflexivity.
  - cbn [contains] in H. apply orb_false_iff in H as [Hp Hc].
    cbn [split_go]. rewrite Hp, (IH Hc). reflexivity.
Qed.

(** No occurrence of ["->"] begins inside [e] when [e] is followed by
    the separator: a final ["-"] of [e] meets the ["-"] of the
    separator, not its [">"]. *)
Lemma split_arrow_app (e rest : string) :
  contains "->" e = false ->
  split_go "->" 0 (e ++ "->" ++ rest) = e :: split_go "->" 0 rest.
Proof.
  induction e as [|c e IH]; intros H.
  - reflexivity.
  - cbn [contains] in H. apply orb_false_iff in H as [Hp Hc].
    change ((String c e ++ "->" ++ rest)%string)
      with (String c (e ++ "->" ++ rest)%string).
    cbn [split_go].
    replace (is_prefix "->" (String c (e ++ "->" ++ rest))) with false.
    + rewrite (IH Hc). reflexivity.
    + symmetry. cbn [is_prefix] in *.
      destruct (Ascii.eqb "-" c); [|reflexivity].
      destruct e as [|c2 e]; [reflexivity|].
      cbn [is_prefix String.append] in Hp |- *.
      destruct (Ascii.eqb ">" c2); [discriminate|reflexivity].
Qed.

Lemma split_slash_app (e rest : string) :
  contains "/" e = false ->
  split_go "/" 0 (e ++ "/" ++ rest) = e :: split_go "/" 0 rest.
Proof.
  induction e as [|c e IH]; intros H.
  - reflexivity.
  - cbn [contains] in H. apply orb_false_iff in H as [Hp Hc].
    change ((String c e ++ "/" ++ rest)%string)
      with (String c (e ++ "/" ++ rest)%string).
    cbn [split_go].
    assert (Hq : is_prefix "/" (String c (e ++ "/" ++ rest)) = false)
      by exact Hp.
    rewrite Hq, (IH Hc). reflexivity.
Qed.

Lemma split_arrow_concat (e : string) (es : list string) :
  Forall separator_free (e :: es) ->
  split_go "->" 0 (String.concat "->" (e :: es)) = e :: es.
Proof.
  revert e. induction es as [|e' es IH]; intros e H.
  - inversion H as [|? ? [Ha _] _]; subst. now apply split_arrow_single.
  - inversion H as [|? ? [Ha _] Ht]; subst.
    change (String.concat "->" (e :: e' :: es))
      with (e ++ "->" ++ String.concat "->" (e' :: es))%string.
    rewrite (split_arrow_app _ _ Ha), (IH _ Ht). reflexivity.
Qed.

Lemma split_slash_concat (e : string) (es : list string) :
  Forall separator_free (e :: es) ->
  split_go "/" 0 (String.concat "/" (e :: es)) = e :: es.
Proof.
  revert e. induction es as [|e' es IH]; intros e H.
  - inversion H as [|? ? [_ Hs] _]; subst. now apply split_slash_single.
  - inversion H as [|? ? [_ Hs] Ht]; subst.
    change (String.concat "/" (e :: e' :: es))
      with (e ++ "/" ++ String.concat "/" (e' :: es))%string.
    rewrite (split_slash_app _ _ Hs), (IH _ Ht). reflexivity.
Qed.

Lemma nonempty_app_l (x y : string) :
  nonempty y = true -> nonempty (x ++ y) = true.
Proof. destruct x, y; simpl; congruence. Qed.

(** A joined path is empty only for no element or one empty element. *)
Lemma nonempty_concat (sep : string) (es : list string) :
  nonempty sep = true ->
  nonempty (String.concat sep es) =
  match es with
  | [] => false
  | [e] => nonempty e
  | _ => true
  end.
Proof.
  intros Hsep. destruct es as [|e [|e' es]]; try reflexivity.
  change (String.concat sep (e :: e' :: es))
    with (e ++ sep ++ String.concat sep (e' :: es))%string.
  apply nonempty_app_l, eq_sym.
  destruct sep; [discriminate|reflexivity].
Qed.

End Split.

(** ** Exceptions inside the [try] block *)

Section Failures.

Variables (source : value) (keytypes : list keytype) (null : value).

Lemma index_raises_lookup_error (o : value) (k : key) (e : exn) :
  index o k = Raise e -> is_lookup_error e = true.
Proof.
  unfold index. intros H.
  destruct o as [| | | s | l | kvs]; try (injection H as <-; reflexivity).
  - destruct k as [ks|i]; [injection H as <-; reflexivity|].
    destruct (seq_index (String.length s) i) as [n|];
      [destruct (string_nth s n)|]; try discriminate;
      injection H as <-; reflexivity.
  - destruct k as [ks|i]; [injection H as <-; reflexivity|].
    destruct (seq_index (List.length l) i) as [n|];
      [destruct (nth_error l n)|]; try discriminate;
      injection H as <-; reflexivity.
  - destruct (dict_get kvs k); [discriminate|].
    injection H as <-; reflexivity.
Qed.

Lemma apply_subscripts_raises_lookup_error (scs : list string) :
  forall obj e o,
    apply_subscripts source null obj scs = Raised e o ->
    is_lookup_error e = true.
Proof.
  induction scs as [|sc scs IH]; intros obj e o H; cbn [apply_subscripts] in H.
  - discriminate.
  - destruct (negb (is_container obj)).
    + injection H as <- _. reflexivity.
    + destruct (index (cursor source null obj) (subscript_key sc)) as [v|e'] eqn:Hi.
      * eauto.
      * injection H as <- _. eapply index_raises_lookup_error; eauto.
Qed.

Lemma do_elem_raises_lookup_error (obj : value) (elem : string) (e : exn) (o : value) :
  do_elem source keytypes null obj elem = Raised e o ->
  is_lookup_error e = true.
Proof.
  unfold do_elem. intros H.
  destruct (subscript_search elem) as [group|].
  - destruct (nonempty (subscript_sub elem)).
    + destruct (index (cursor source null obj) (KStr (subscript_sub elem)))
        as [v|e'] eqn:Hi.
      * eapply apply_subscripts_raises_lookup_error; eauto.
      * injection H as <- _. eapply index_raises_lookup_error; eauto.
    + eapply apply_subscripts_raises_lookup_error; eauto.
  - destruct (negb (is_container obj)); [|discriminate].
    injection H as <- _. reflexivity.
Qed.

Lemma run_elems_raises_lookup_error (elems : list string) :
  forall obj e o,
    run_elems source keytypes null obj elems = Raised e o ->
    is_lookup_error e = true.
Proof.
  induction elems as [|elem elems IH]; intros obj e o H; cbn [run_elems] in H.
  - discriminate.
  - destruct (nonempty elem); [|eauto].
    destruct (do_elem source keytypes null obj elem) as [o'|e' o'] eqn:Hd.
    + eauto.
    + injection H as <- _. eapply do_elem_raises_lookup_error; eauto.
Qed.


End Failures.

(** ** The claims *)

(** C1 (the code departs from the claim): in [{"a": {"c": 1}, "b": 5}] the
    step [zz] of ["a->zz->b"] fails with [KeyError] on [{"c": 1}], yet
    the element [b] is still processed, from the root, and the call
    returns [5] instead of the sentinel. *)
Theorem failed_name_step_continues_from_root :
  let tree := VDict [(KStr "a", VDict [(KStr "c", VInt 1)]); (KStr "b", VInt 5)] in
  jpath tree "a" default_keytypes nil default_sep = Ok (VDict [(KStr "c", VInt 1)]) /\
  index (VDict [(KStr "c", VInt 1)]) (KStr "zz") = Raise KeyError /\
  jpath tree "a->zz" default_keytypes nil default_sep = Ok nil /\
  jpath tree "a->zz->b" default_keytypes nil default_sep = Ok (VInt 5) /\
  py_eq (VInt 5) nil = false.
Proof. vm_compute. repeat split. Qed.

(** C2 (the code departs from the claim): the loop over [keytypes] has no
    exit after a success.  In [{"1": {"x": 1}}] the element ["1"] resolves
    as a [str] key to [{"x": 1}]; the [int] turn then subscripts that
    value with [1], gets [KeyError] and resets the cursor to the
    sentinel.  In [{"1": [10, 20, 30]}] the [int] turn succeeds as well
    and replaces the list by its item [20]. *)
Theorem later_keytype_alters_resolved_cursor :
  let t1 := VDict [(KStr "1", VDict [(KStr "x", VInt 1)])] in
  let t2 := VDict [(KStr "1", VList [VInt 10; VInt 20; VInt 30])] in
  convert KT_str "1" = Ok (KStr "1") /\
  index t1 (KStr "1") = Ok (VDict [(KStr "x", VInt 1)]) /\
  jpath t1 "1" default_keytypes nil default_sep = Ok nil /\
  index t2 (KStr "1") = Ok (VList [VInt 10; VInt 20; VInt 30]) /\
  jpath t2 "1" default_keytypes nil default_sep = Ok (VInt 20) /\
  jpath t2 "1" [KT_str] nil default_sep = Ok (VList [VInt 10; VInt 20; VInt 30]).
Proof. vm_compute. repeat split. Qed.

(** C3 (the code departs from the claim): [jxpath] passes the module's
    [nil] to [jpath], not its own [null] argument.  With [null = None] and
    a path that fails, [jpath] with [sep = "/"] returns [None] while
    [jxpath] returns [{"result": "error"}]. *)
Theorem jxpath_ignores_supplied_null :
  let tree := VDict [(KStr "a", VInt 1)] in
  jpath tree "b" default_keytypes VNone "/" = Ok VNone /\
  jxpath tree "b" default_keytypes VNone = Ok nil /\
  jxpath tree "b" default_keytypes VNone <> jpath tree "b" default_keytypes VNone "/".
Proof. vm_compute. repeat split. discriminate. Qed.

(** C4: the empty path returns the tree itself, whatever the tree, the
    key types, the sentinel and the separator. *)
Theorem empty_path_returns_source
    (source : value) (keytypes : list keytype) (null : value) (sep : string) :
  jpath source EmptyString keytypes null sep = Ok source.
Proof. reflexivity. Qed.

(** ** Typing of subscript tokens *)

Section SubscriptTyping.

Lemma digit_not_space (c : ascii) : is_digit c = true -> is_int_space c = false.
Proof.
  intros H. apply orb_false_iff. split.
  - unfold is_digit, in_range in *.
    apply andb_true_iff in H as [H1 H2].
    apply Nat.leb_le in H1. apply Nat.leb_le in H2.
    apply andb_false_iff. right. apply Nat.leb_gt. lia.
  - destruct (Ascii.eqb_spec c " "); [subst; discriminate|reflexivity].
Qed.

Lemma digit_not_sign (c : ascii) :
  is_digit c = true -> Ascii.eqb c "-" = false /\ Ascii.eqb c "+" = false.
Proof.
  intros H. split.
  - destruct (Ascii.eqb_spec c "-"); [subst; discriminate|reflexivity].
  - destruct (Ascii.eqb_spec c "+"); [subst; discriminate|reflexivity].
Qed.

Lemma digit_val_nonneg (c : ascii) : 0 <= digit_val c.
Proof. unfold digit_val. lia. Qed.

Lemma int_digits_of_digits (ds : string) :
  forall acc prev,
    string_forallb is_digit ds = true ->
    0 <= acc ->
    prev = true \/ ds <> EmptyString ->
    exists n, 0 <= n /\ int_digits acc prev ds = Some n.
Proof.
  induction ds as [|c ds IH]; intros acc prev Hd Hacc Hne.
  - destruct Hne as [->|Hne]; [|congruence]. exists acc. now split.
  - cbn [string_forallb] in Hd. apply andb_true_iff in Hd as [Hc Hd].
    cbn [int_digits]. rewrite Hc.
    apply IH; auto. pose proof (digit_val_nonneg c). lia.
Qed.

(** A token made of digits is an integer key. *)
Lemma subscript_key_digits (ds : string) :
  ds <> EmptyString ->
  string_forallb is_digit ds = true ->
  exists n, 0 <= n /\ subscript_key ds = KInt n.
Proof.
  intros Hne Hd. destruct ds as [|c ds]; [congruence|].
  pose proof Hd as Hd'. cbn [string_forallb] in Hd'.
  apply andb_true_iff in Hd' as [Hc _].
  destruct (int_digits_of_digits (String c ds) 0 false Hd) as [n [Hn Hi]];
    [lia|now right|].
  exists n. split; [exact Hn|].
  unfold subscript_key, py_int. cbn [drop_while].
  rewrite (digit_not_space _ Hc).
  destruct (digit_not_sign _ Hc) as [-> ->].
  now rewrite Hi.
Qed.

Lemma key_char_not_quote (c : ascii) :
  is_key_char c = true -> is_quote c = false.
Proof.
  intros H. unfold is_quote.
  destruct (Ascii.eqb_spec c "'"); [subst; discriminate|].
  destruct (Ascii.eqb_spec c dquote); [subst; discriminate|reflexivity].
Qed.

Lemma quote_cases (q : ascii) : is_quote q = true -> q = "'"%char \/ q = dquote.
Proof.
  unfold is_quote. intros H. apply orb_true_iff in H as [H|H];
    apply Ascii.eqb_eq in H; auto.
Qed.

Lemma py_int_quoted (q : ascii) (r : string) :
  is_quote q = true -> py_int (String q r) = None.
Proof. intros H. destruct (quote_cases _ H); subst; reflexivity. Qed.

Lemma apex_sub_go_closing (q : ascii) (k : string) :
  is_quote q = true ->
  string_forallb is_key_char k = true ->
  apex_sub_go false (k ++ String q EmptyString) = k.
Proof.
  intros Hq. induction k as [|c k IH]; intros Hk.
  - cbn. rewrite Hq. reflexivity.
  - cbn [string_forallb] in Hk. apply andb_true_iff in Hk as [Hc Hk].
    change (String c k ++ String q EmptyString)%string
      with (String c (k ++ String q EmptyString)%string).
    cbn [apex_sub_go]. rewrite (key_char_not_quote _ Hc). cbn [andb].
    now rewrite (IH Hk).
Qed.

(** A quoted token is a string key: the text between the quotes. *)
Lemma subscript_key_quoted (q : ascii) (k : string) :
  is_quote q = true ->
  string_forallb is_key_char k = true ->
  subscript_key (String q (k ++ String q EmptyString)) = KStr k.
Proof.
  intros Hq Hk. unfold subscript_key. rewrite (py_int_quoted _ _ Hq).
  unfold apex_sub. cbn [apex_sub_go]. rewrite Hq. cbn [andb orb].
  now rewrite (apex_sub_go_closing _ _ Hq Hk).
Qed.

End SubscriptTyping.

(** C5: a subscript token is typed by [int] first and by quote stripping
    otherwise.  A token of digits is an integer key, a token between a
    pair of quotes is the string key between them, so [[0]] is
    integer-typed and [["0"]], [['0']] are string-typed; on
    [[10, 20, 30]] the subscript [[1]] yields [20] and [["1"]] yields the
    sentinel. *)
Theorem subscript_tokens_are_typed (ds : string) (q : ascii) (k : string) :
  ds <> EmptyString ->
  string_forallb is_digit ds = true ->
  is_quote q = true ->
  string_forallb is_key_char k = true ->
  (exists n, 0 <= n /\ subscript_key ds = KInt n) /\
  subscript_key (String q (k ++ String q EmptyString)) = KStr k /\
  subscript_key "0" = KInt 0 /\
  subscript_key (quoted dquote "0") = KStr "0" /\
  subscript_key "'0'" = KStr "0" /\
  (let arr := VList [VInt 10; VInt 20; VInt 30] in
   jpath arr "[1]" default_keytypes nil default_sep = Ok (VInt 20) /\
   index arr (KStr "1") = Raise TypeError /\
   jpath arr (quoted_group dquote "1") default_keytypes nil default_sep = Ok nil /\
   jpath arr "['1']" default_keytypes nil default_sep = Ok nil).
Proof.
  intros Hne Hd Hq Hk.
  split; [now apply subscript_key_digits|].
  split; [now apply subscript_key_quoted|].
  vm_compute. repeat split.
Qed.

Lemma subscript_tokens_are_typed_witness :
  "12" <> EmptyString /\
  string_forallb is_digit "12" = true /\
  is_quote "'" = true /\
  string_forallb is_key_char "a b" = true /\
  (exists n, 0 <= n /\ subscript_key "12" = KInt n) /\
  subscript_key "'a b'" = KStr "a b".
Proof.
  split; [discriminate|]. repeat (split; [reflexivity|]).
  destruct (subscript_tokens_are_typed "12" "'" "a b") as [H1 [H2 _]];
    [discriminate|reflexivity|reflexivity|reflexivity|].
  split; [exact H1|exact H2].
Defined.




(** C8 (amended): a path given by its elements, none of which holds
    ["->"] or ["/"], evaluates to the same result when joined with ["->"]
    and passed to [jpath] and when joined with ["/"] and passed to
    [jxpath], under the default sentinel and key types, for every tree. *)
Theorem separator_equivalence (source : value) (elems : list string) :
  Forall separator_free elems ->
  jpath source (String.concat "->" elems) default_keytypes nil default_sep =
  jxpath source (String.concat "/" elems) default_keytypes nil.
Proof.
  intros H. unfold jxpath, jpath, default_sep.
  rewrite !nonempty_concat by reflexivity.
  destruct elems as [|e es]; [reflexivity|].
  cbn [py_split].
  rewrite (split_arrow_concat _ _ H), (split_slash_concat _ _ H).
  reflexivity.
Qed.

Lemma separator_equivalence_witness :
  Forall separator_free ["test"; "path[0]"; "to[1][2]"] /\
  jpath d "test->path[0]->to[1][2]" default_keytypes nil default_sep =
  jxpath d "test/path[0]/to[1][2]" default_keytypes nil.
Proof.
  assert (H : Forall separator_free ["test"; "path[0]"; "to[1][2]"])
    by (repeat constructor).
  split; [exact H|].
  exact (separator_equivalence d ["test"; "path[0]"; "to[1][2]"] H).
Defined.

(** C8, as stated, fails for a path that holds ["/"]: the keys of
    [{"x": {"y": 1}}] hold no separator character, the path ["x/y"] holds
    no ["->"], so rewriting its separators leaves it as it is; [jpath]
    looks the one element ["x/y"] up as a key and returns the sentinel,
    [jxpath] reads [x] then [y] and returns [1]. *)
Lemma separator_equivalence_fails_on_slash_in_path :
  let tree := VDict [(KStr "x", VDict [(KStr "y", VInt 1)])] in
  keys_separator_free tree = true /\
  contains "->" "x/y" = false /\
  split_go "->" 0 "x/y" = ["x/y"] /\
  jpath tree "x/y" default_keytypes nil default_sep = Ok nil /\
  jxpath tree "x/y" default_keytypes nil = Ok (VInt 1) /\
  jpath tree "x/y" default_keytypes nil default_sep <>
  jxpath tree "x/y" default_keytypes nil.
Proof. vm_compute. repeat split. discriminate. Qed.


(** ** The tokenizer on identifiers *)

Section Tokenizer.

Lemma word_not_bracket (c : ascii) : is_word c = true -> is_bracket c = false.
Proof. intros H. by_char c. Qed.

Lemma word_not_dash (c : ascii) : is_word c = true -> Ascii.eqb "-" c = false.
Proof. intros H. by_char c. Qed.

Lemma word_not_open (c : ascii) : is_word c = true -> Ascii.eqb c "[" = false.
Proof. intros H. by_char c. Qed.

Lemma word_is_key_char (c : ascii) : is_word c = true -> is_key_char c = true.
Proof. unfold is_key_char. now intros ->. Qed.

Lemma ident_start_is_word (c : ascii) : is_ident_start c = true -> is_word c = true.
Proof. intros H. by_char c. Qed.

Lemma ident_start_not_int (c : ascii) (r : string) :
  is_ident_start c = true -> py_int (String c r) = None.
Proof.
  intros H. unfold py_int. cbn [drop_while].
  replace (is_int_space c) with false by (symmetry; by_char c).
  replace (Ascii.eqb c "-") with false by (symmetry; by_char c).
  replace (Ascii.eqb c "+") with false by (symmetry; by_char c).
  cbn [int_digits].
  replace (is_digit c) with false by (symmetry; by_char c).
  replace (is_int_space c) with false by (symmetry; by_char c).
  destruct (Ascii.eqb c "_"); [destruct r|]; reflexivity.
Qed.

Lemma ident_words (s : string) :
  is_ident s = true -> string_forallb is_word s = true.
Proof.
  destruct s as [|c r]; [discriminate|]. cbn [is_ident string_forallb].
  intros H. apply andb_true_iff in H as [Hc Hr].
  now rewrite (ident_start_is_word _ Hc), Hr.
Qed.

Lemma ident_nonempty (s : string) : is_ident s = true -> nonempty s = true.
Proof. destruct s; [discriminate|reflexivity]. Qed.

Lemma ident_not_int (s : string) : is_ident s = true -> py_int s = None.
Proof.
  destruct s as [|c r]; [discriminate|]. cbn [is_ident]. intros H.
  apply andb_true_iff in H as [Hc _]. now apply ident_start_not_int.
Qed.

Lemma dash_free_no_arrow (s : string) :
  dash_free s = true -> contains "->" s = false.
Proof.
  unfold dash_free. induction s as [|c s IH]; intros H.
  - reflexivity.
  - cbn [string_forallb] in H. apply andb_true_iff in H as [Hc Hs].
    cbn [contains is_prefix]. apply negb_true_iff in Hc.
    rewrite Hc, (IH Hs). reflexivity.
Qed.

Lemma words_dash_free (s : string) :
  string_forallb is_word s = true -> dash_free s = true.
Proof.
  unfold dash_free. induction s as [|c s IH]; intros H.
  - reflexivity.
  - cbn [string_forallb] in H |- *. apply andb_true_iff in H as [Hc Hs].
    now rewrite (word_not_dash _ Hc), (IH Hs).
Qed.

Lemma dash_free_app (x y : string) :
  dash_free x = true -> dash_free y = true -> dash_free (x ++ y) = true.
Proof.
  unfold dash_free. induction x as [|c x IH]; intros Hx Hy.
  - exact Hy.
  - cbn [string_forallb String.append] in Hx |- *.
    apply andb_true_iff in Hx as [Hc Hx]. now rewrite Hc, IH.
Qed.

(** *** The fuel of [run_len] never cuts a run short *)

Lemma string_drop_length (n : nat) (s : string) :
  String.length (string_drop n s) = (String.length s - n)%nat.
Proof.
  revert n. induction s as [|c s IH]; intros [|n]; cbn; auto.
Qed.

Lemma run_len_fuel_stable (f1 : nat) :
  forall f2 s,
    (String.length s <= f1)%nat -> (String.length s <= f2)%nat ->
    run_len_fuel f1 s = run_len_fuel f2 s.
Proof.
  induction f1 as [|f1 IH]; intros f2 s H1 H2.
  - destruct s; [|cbn in H1; lia]. now destruct f2.
  - destruct f2 as [|f2].
    + destruct s; [reflexivity|cbn in H2; lia].
    + cbn [run_len_fuel]. destruct (group_len s) as [|n]; [reflexivity|].
      f_equal. apply IH; rewrite string_drop_length; lia.
Qed.

(** [run_len] obeys the equation of [(group)+]. *)
Lemma run_len_unfold (s : string) :
  run_len s =
  match group_len s with
  | O => O
  | n => (n + run_len (string_drop n s))%nat
  end.
Proof.
  unfold run_len. destruct s as [|c s]; [reflexivity|].
  cbn [String.length run_len_fuel].
  destruct (group_len (String c s)) as [|n]; [reflexivity|].
  f_equal. apply run_len_fuel_stable; rewrite string_drop_length;
    cbn [String.length]; lia.
Qed.

(** *** [subscript_re] finds nothing in a bare name *)

Lemma group_len_no_open (c : ascii) (r : string) :
  Ascii.eqb c "[" = false -> group_len (String c r) = O.
Proof. intros H. unfold group_len. destruct r; [reflexivity|]. now rewrite H. Qed.

Lemma run_len_no_open (c : ascii) (r : string) :
  Ascii.eqb c "[" = false -> run_len (String c r) = O.
Proof.
  intros H. unfold run_len. cbn [String.length run_len_fuel].
  now rewrite (group_len_no_open _ _ H).
Qed.

Lemma search_words (s : string) :
  string_forallb is_word s = true -> subscript_search s = None.
Proof.
  induction s as [|c s IH]; intros H.
  - reflexivity.
  - cbn [string_forallb] in H. apply andb_true_iff in H as [Hc Hs].
    cbn [subscript_search].
    now rewrite (run_len_no_open _ _ (word_not_open _ Hc)), (IH Hs).
Qed.

(** *** [subscript_re] on [name["key"]] *)

Lemma take_while_len_app (p : ascii -> bool) (k : string) (c : ascii) (r : string) :
  string_forallb p k = true -> p c = false ->
  take_while_len p (k ++ String c r) = String.length k.
Proof.
  intros Hk Hc. induction k as [|x k IH].
  - cbn. now rewrite Hc.
  - cbn [string_forallb] in Hk. apply andb_true_iff in Hk as [Hx Hk].
    cbn [String.append take_while_len String.length]. now rewrite Hx, IH.
Qed.

Lemma string_drop_app (k r : string) : string_drop (String.length k) (k ++ r) = r.
Proof. induction k as [|x k IH]; [now destruct r|exact IH]. Qed.

Lemma string_drop_all (n : nat) (s : string) :
  (String.length s <= n)%nat -> string_drop n s = EmptyString.
Proof.
  revert n. induction s as [|c s IH]; intros n H.
  - now destruct n.
  - destruct n as [|n]; cbn [String.length] in H; [lia|].
    cbn [string_drop]. apply IH. lia.
Qed.

Lemma string_take_all (s : string) : string_take (String.length s) s = s.
Proof. induction s as [|c s IH]; [reflexivity|]. cbn. now rewrite IH. Qed.

Lemma length_app (x y : string) :
  String.length (x ++ y) = (String.length x + String.length y)%nat.
Proof. induction x as [|c x IH]; [reflexivity|]. cbn. now rewrite IH. Qed.

Lemma quote_not_key_char (q : ascii) : is_quote q = true -> is_key_char q = false.
Proof. intros H. destruct (quote_cases _ H); subst; reflexivity. Qed.

Lemma quote_not_digit (q : ascii) : is_quote q = true -> is_digit q = false.
Proof. intros H. destruct (quote_cases _ H); subst; reflexivity. Qed.

Lemma quoted_group_length (q : ascii) (k : string) :
  String.length (quoted_group q k) = (String.length k + 4)%nat.
Proof. unfold quoted_group. cbn [String.length]. rewrite length_app. cbn. lia. Qed.

Lemma group_len_quoted (q : ascii) (k : string) :
  is_quote q = true ->
  string_forallb is_key_char k = true ->
  group_len (quoted_group q k) = (String.length k + 4)%nat.
Proof.
  intros Hq Hk. unfold group_len, quoted_group.
  rewrite Ascii.eqb_refl. cbn [negb].
  rewrite (quote_not_digit _ Hq), Hq.
  rewrite (take_while_len_app _ _ _ _ Hk (quote_not_key_char _ Hq)).
  rewrite string_drop_app. cbn [head_is].
  now rewrite !Ascii.eqb_refl.
Qed.

Lemma run_len_quoted (q : ascii) (k : string) :
  is_quote q = true ->
  string_forallb is_key_char k = true ->
  run_len (quoted_group q k) = String.length (quoted_group q k).
Proof.
  intros Hq Hk. unfold run_len. rewrite quoted_group_length.
  rewrite Nat.add_comm. cbn [Nat.add run_len_fuel].
  rewrite (group_len_quoted _ _ Hq Hk).
  rewrite (Nat.add_comm (String.length k) 4). cbn [Nat.add].
  rewrite string_drop_all by (rewrite quoted_group_length; lia).
  f_equal. cbn [run_len_fuel group_len]. lia.
Qed.

Lemma search_name_group (p g : string) :
  string_forallb is_word p = true ->
  nonempty g = true ->
  run_len g = String.length g ->
  subscript_search (p ++ g) = Some g.
Proof.
  intros Hp Hg Hr. induction p as [|c p IH].
  - destruct g as [|x g]; [discriminate|].
    cbn [String.append subscript_search]. rewrite Hr.
    cbn [String.length]. now rewrite <- (string_take_all (String x g)) at 2.
  - cbn [string_forallb] in Hp. apply andb_true_iff in Hp as [Hc Hp].
    cbn [String.append subscript_search].
    now rewrite (run_len_no_open _ _ (word_not_open _ Hc)), (IH Hp).
Qed.

Lemma sub_go_skips (s : string) :
  forall n, (String.length s <= n)%nat -> subscript_sub_go n s = EmptyString.
Proof.
  induction s as [|c s IH]; intros n H; [reflexivity|].
  destruct n as [|n]; cbn [String.length] in H; [lia|].
  cbn [subscript_sub_go]. apply IH. lia.
Qed.

Lemma sub_name_group (p g : string) :
  string_forallb is_word p = true ->
  nonempty g = true ->
  run_len g = String.length g ->
  subscript_sub (p ++ g) = p.
Proof.
  unfold subscript_sub. intros Hp Hg Hr. induction p as [|c p IH].
  - destruct g as [|x g]; [discriminate|].
    cbn [String.append subscript_sub_go]. rewrite Hr.
    cbn [String.length]. now apply sub_go_skips.
  - cbn [string_forallb] in Hp. apply andb_true_iff in Hp as [Hc Hp].
    cbn [String.append subscript_sub_go].
    now rewrite (run_len_no_open _ _ (word_not_open _ Hc)), (IH Hp).
Qed.

Lemma brackets_split_closing (q : ascii) (k : string) :
  is_quote q = true ->
  string_forallb is_word k = true ->
  brackets_split (k ++ String q (String "]" EmptyString)) =
  [(k ++ String q EmptyString)%string; EmptyString].
Proof.
  intros Hq Hk. induction k as [|c k IH].
  - destruct (quote_cases _ Hq); subst; reflexivity.
  - cbn [string_forallb] in Hk. apply andb_true_iff in Hk as [Hc Hk].
    cbn [String.append brackets_split].
    now rewrite (word_not_bracket _ Hc), (IH Hk).
Qed.

Lemma tokens_quoted (q : ascii) (k : string) :
  is_quote q = true ->
  string_forallb is_word k = true ->
  subscript_tokens (quoted_group q k) = [String q (k ++ String q EmptyString)].
Proof.
  intros Hq Hk. unfold subscript_tokens, quoted_group.
  cbn [brackets_split]. replace (is_bracket "[") with true by reflexivity.
  replace (is_bracket q) with false
    by (destruct (quote_cases _ Hq); subst; reflexivity).
  now rewrite (brackets_split_closing _ _ Hq Hk).
Qed.

Lemma words_key_chars (k : string) :
  string_forallb is_word k = true -> string_forallb is_key_char k = true.
Proof.
  induction k as [|c k IH]; [reflexivity|]. cbn [string_forallb].
  intros H. apply andb_true_iff in H as [Hc Hk].
  now rewrite (word_is_key_char _ Hc), (IH Hk).
Qed.

End Tokenizer.

(** ** One element of the path, symbolically *)

Section Elements.

Variables (source : value) (null : value).

(** A bare identifier under the default key types: only the [str]
    turn subscripts, the [int] turn fails to convert. *)
Lemma do_elem_ident (obj : value) (elem : string) :
  is_ident elem = true ->
  do_elem source default_keytypes null obj elem =
  if negb (is_container obj) then Raised TypeError obj
  else Normal
         match index (cursor source null obj) (KStr elem) with
         | Ok v => v
         | Raise IndexError | Raise KeyError => null
         | Raise _ => obj
         end.
Proof.
  intros H. unfold do_elem.
  rewrite (search_words _ (ident_words _ H)).
  destruct (negb (is_container obj)); [reflexivity|].
  cbn [effective_keytypes default_keytypes fold_left].
  unfold try_keytype. cbn [convert]. now rewrite (ident_not_int _ H).
Qed.

(** An identifier followed by one quoted subscript. *)
Lemma do_elem_ident_quoted (keytypes : list keytype) (obj : value)
    (q : ascii) (p k : string) :
  is_quote q = true ->
  is_ident p = true ->
  string_forallb is_word k = true ->
  do_elem source keytypes null obj (p ++ quoted_group q k) =
  match index (cursor source null obj) (KStr p) with
  | Raise e => Raised e obj
  | Ok o =>
      if negb (is_container o) then Raised TypeError o
      else
        match index (cursor source null o) (KStr k) with
        | Ok v => Normal v
        | Raise e => Raised e o
        end
  end.
Proof.
  intros Hq Hp Hk. unfold do_elem.
  pose proof (words_key_chars _ Hk) as Hkc.
  rewrite (search_name_group p (quoted_group q k) (ident_words _ Hp) eq_refl
             (run_len_quoted _ _ Hq Hkc)).
  rewrite (sub_name_group p (quoted_group q k) (ident_words _ Hp) eq_refl
             (run_len_quoted _ _ Hq Hkc)).
  rewrite (ident_nonempty _ Hp).
  destruct (index (cursor source null obj) (KStr p)) as [o|e]; [|reflexivity].
  rewrite (tokens_quoted _ _ Hq Hk). cbn [apply_subscripts].
  rewrite (subscript_key_quoted _ _ Hq Hkc).
  destruct (negb (is_container o)); [reflexivity|].
  destruct (index (cursor source null o) (KStr k)); reflexivity.
Qed.

End Elements.

Lemma split_ident_arrow (p k : string) :
  is_ident p = true -> is_ident k = true ->
  split_go "->" 0 (p ++ "->" ++ k) = [p; k].
Proof.
  intros Hp Hk.
  rewrite split_arrow_app
    by (apply dash_free_no_arrow, words_dash_free, ident_words, Hp).
  rewrite split_arrow_single
    by (apply dash_free_no_arrow, words_dash_free, ident_words, Hk).
  reflexivity.
Qed.

Lemma split_ident_quoted (q : ascii) (p k : string) :
  is_quote q = true -> is_ident p = true -> string_forallb is_word k = true ->
  split_go "->" 0 (p ++ quoted_group q k) = [(p ++ quoted_group q k)%string].
Proof.
  intros Hq Hp Hk. apply split_arrow_single, dash_free_no_arrow, dash_free_app.
  - apply words_dash_free, ident_words, Hp.
  - unfold quoted_group, dash_free. cbn [string_forallb].
    replace (Ascii.eqb "-" "[") with false by reflexivity.
    replace (Ascii.eqb "-" q) with false
      by (destruct (quote_cases _ Hq); subst; reflexivity).
    cbn [negb andb]. apply dash_free_app; [now apply words_dash_free|].
    destruct (quote_cases _ Hq); subst; reflexivity.
Qed.

Lemma index_dict_string (kvs : list (key * value)) (k : key) :
  match index (VDict kvs) k with
  | Ok _ | Raise KeyError => True
  | Raise _ => False
  end.
Proof. cbn [index]. now destruct (dict_get kvs k). Qed.

(** Where the two forms do agree: in an object whose member [p] is not
    an array, [p["key"]] and [p->key] yield the same result for
    identifiers [p] and [key], under the default sentinel and key types,
    whether the key resolves or not. *)
Lemma quoted_subscript_equals_arrow
    (kvs : list (key * value)) (p k : string) (v : value) :
  is_ident p = true ->
  is_ident k = true ->
  dict_get kvs (KStr p) = Some v ->
  is_list v = false ->
  jpath (VDict kvs) (p ++ quoted_group dquote k) default_keytypes nil default_sep =
  jpath (VDict kvs) (p ++ "->" ++ k) default_keytypes nil default_sep.
Proof.
  intros Hp Hk Hv Hl.
  unfold jpath, default_sep.
  rewrite (nonempty_app_l p (quoted_group dquote k)) by reflexivity.
  rewrite (nonempty_app_l p ("->" ++ k)) by reflexivity.
  cbn [py_split].
  rewrite (split_ident_quoted dquote p k eq_refl Hp (ident_words _ Hk)).
  rewrite (split_ident_arrow p k Hp Hk).
  cbn [run_elems].
  rewrite (nonempty_app_l p (quoted_group dquote k)) by reflexivity.
  rewrite (ident_nonempty _ Hp), (ident_nonempty _ Hk).
  rewrite (do_elem_ident_quoted _ _ default_keytypes nil dquote p k eq_refl Hp (ident_words _ Hk)).
  rewrite (do_elem_ident _ _ nil p Hp).
  replace (cursor (VDict kvs) nil nil) with (VDict kvs) by reflexivity.
  replace (negb (is_container nil)) with false by reflexivity.
  cbn [index]. rewrite Hv.
  rewrite (do_elem_ident _ _ v k Hk).
  destruct (negb (is_container v)) eqn:Hc; [reflexivity|].
  assert (Hd : exists kvs', cursor (VDict kvs) nil v = VDict kvs').
  { unfold cursor. destruct (py_eq v nil); [now exists kvs|].
    destruct v; try discriminate. eauto. }
  destruct Hd as [kvs' ->].
  pose proof (index_dict_string kvs' (KStr k)) as Hi.
  destruct (index (VDict kvs') (KStr k)) as [w|[]]; try contradiction; reflexivity.
Qed.

Lemma quoted_subscript_equals_arrow_witness :
  is_ident "test" = true /\ is_ident "inner" = true /\
  jpath d ("test" ++ quoted_group dquote "inner") default_keytypes nil default_sep =
  jpath d "test->inner" default_keytypes nil default_sep.
Proof.
  split; [reflexivity|]. split; [reflexivity|].
  refine (quoted_subscript_equals_arrow _ "test" "inner" _ _ _ _ _);
    reflexivity.
Defined.

(** C7 (the code departs from the claim and from the note of its own
    test cases, "->key and ['key'] are equivalent"): in [{"a": [1, 2]}]
    the form [a["b"]] raises [TypeError] and yields the sentinel, while
    in [a->b] the [TypeError] of the [str] turn is passed over and the
    array itself is returned. *)
Theorem quoted_subscript_differs_on_array :
  let tree := VDict [(KStr "a", VList [VInt 1; VInt 2])] in
  is_ident "b" = true /\
  jpath tree ("a" ++ quoted_group dquote "b") default_keytypes nil default_sep = Ok nil /\
  jpath tree "a->b" default_keytypes nil default_sep = Ok (VList [VInt 1; VInt 2]) /\
  jpath tree ("a" ++ quoted_group dquote "b") default_keytypes nil default_sep <>
  jpath tree "a->b" default_keytypes nil default_sep.
Proof. vm_compute. repeat split. discriminate. Qed.

(** ** The cursor and the sentinel *)

(** Equal values are containers together. *)
Lemma py_eq_container (x y : value) :
  py_eq x y = true -> is_container x = is_container y.
Proof. destruct x, y; cbn; intros H; congruence. Qed.

Section SentinelCursor.

Variables (source : value) (keytypes : list keytype) (null : value).
Hypothesis null_refl : py_eq null null = true.

Lemma alike_refl (x : value) : sentinel_alike null x x.
Proof. now left. Qed.

(** Every step subscripts the same object for both cursors: [source]
    when the cursor equals the sentinel. *)
Lemma cursor_alike (x y : value) :
  sentinel_alike null x y -> cursor source null x = cursor source null y.
Proof.
  intros [->|[Hx ->]]; [reflexivity|].
  unfold cursor. now rewrite Hx, null_refl.
Qed.

Lemma container_alike (x y : value) :
  sentinel_alike null x y -> is_container x = is_container y.
Proof. intros [->|[Hx ->]]; [reflexivity|now apply py_eq_container]. Qed.

Lemma try_keytype_alike (elem : string) (k : keytype) (x y : value) :
  sentinel_alike null x y ->
  sentinel_alike null (try_keytype source null elem x k)
                      (try_keytype source null elem y k).
Proof.
  intros H. unfold try_keytype. rewrite (cursor_alike _ _ H).
  destruct (convert k elem) as [key|]; [|exact H].
  destruct (index (cursor source null y) key) as [v|[]];
    (exact H || apply alike_refl).
Qed.

Lemma fold_keytypes_alike (elem : string) (ks : list keytype) :
  forall x y,
    sentinel_alike null x y ->
    sentinel_alike null (fold_left (try_keytype source null elem) ks x)
                        (fold_left (try_keytype source null elem) ks y).
Proof.
  induction ks as [|k ks IH]; intros x y H; cbn [fold_left]; [exact H|].
  apply IH. now apply try_keytype_alike.
Qed.

Lemma apply_subscripts_alike (scs : list string) :
  forall x y,
    sentinel_alike null x y ->
    outcome_alike null (apply_subscripts source null x scs)
                       (apply_subscripts source null y scs).
Proof.
  induction scs as [|sc scs IH]; intros x y H; cbn [apply_subscripts].
  - exact H.
  - rewrite (container_alike _ _ H), (cursor_alike _ _ H).
    destruct (negb (is_container y)); [reflexivity|].
    destruct (index (cursor source null y) (subscript_key sc)) as [v|e].
    + apply IH, alike_refl.
    + reflexivity.
Qed.

Lemma do_elem_alike (elem : string) (x y : value) :
  sentinel_alike null x y ->
  outcome_alike null (do_elem source keytypes null x elem)
                     (do_elem source keytypes null y elem).
Proof.
  intros H. unfold do_elem. rewrite (cursor_alike _ _ H).
  destruct (subscript_search elem) as [group|].
  - destruct (nonempty (subscript_sub elem)).
    + destruct (index (cursor source null y) (KStr (subscript_sub elem)));
        [apply apply_subscripts_alike, alike_refl|reflexivity].
    + apply apply_subscripts_alike, alike_refl.
  - rewrite (container_alike _ _ H).
    destruct (negb (is_container y)); [reflexivity|].
    now apply fold_keytypes_alike.
Qed.

Lemma run_elems_alike (elems : list string) :
  forall x y,
    sentinel_alike null x y ->
    outcome_alike null (run_elems source keytypes null x elems)
                       (run_elems source keytypes null y elems).
Proof.
  induction elems as [|elem elems IH]; intros x y H; cbn [run_elems].
  - exact H.
  - destruct (nonempty elem); [|now apply IH].
    pose proof (do_elem_alike elem x y H) as Hd.
    destruct (do_elem source keytypes null x elem) as [x'|e1 x'],
             (do_elem source keytypes null y elem) as [y'|e2 y'];
      cbn [outcome_alike] in Hd; try contradiction.
    + now apply IH.
    + exact Hd.
Qed.

Lemma finish_alike (x y : value) (elems : list string) :
  sentinel_alike null x y ->
  sentinel_alike null (finish null (run_elems source keytypes null x elems))
                      (finish null (run_elems source keytypes null y elems)).
Proof.
  intros H. pose proof (run_elems_alike elems x y H) as Hr.
  destruct (run_elems source keytypes null x elems) as [x'|e1 x'] eqn:Hx,
           (run_elems source keytypes null y elems) as [y'|e2 y'] eqn:Hy;
    cbn [outcome_alike] in Hr; try contradiction; cbn [finish].
  - exact Hr.
  - subst e2.
    rewrite (run_elems_raises_lookup_error _ _ _ _ _ _ _ Hx). apply alike_refl.
Qed.

Lemma run_elems_app (before after : list string) :
  forall obj,
    run_elems source keytypes null obj (before ++ after) =
    match run_elems source keytypes null obj before with
    | Normal o => run_elems source keytypes null o after
    | Raised e o => Raised e o
    end.
Proof.
  induction before as [|b before IH]; intros obj; cbn [app run_elems].
  - reflexivity.
  - destruct (nonempty b); [|apply IH].
    destruct (do_elem source keytypes null obj b); [apply IH|reflexivity].
Qed.

End SentinelCursor.

Lemma nonempty_concat_app (sep : string) (before after : list string) :
  nonempty sep = true ->
  nonempty (String.concat sep after) = true ->
  nonempty (String.concat sep (before ++ after)) = true.
Proof.
  intros Hsep Ha. destruct before as [|b bs]; [exact Ha|].
  rewrite nonempty_concat by exact Hsep. cbn [app].
  destruct (bs ++ after)%list as [|e es] eqn:E; [|reflexivity].
  apply app_eq_nil in E as [_ ->]. discriminate.
Qed.

(** C10: the cursor is compared with the sentinel by [==].  When the
    elements [before] leave a cursor [v] that equals the sentinel, the
    elements [after] are resolved against the whole tree: the path
    [before->after] returns what the path [after] alone returns (the two
    results are the same value, or the first is a value that [==] the
    sentinel where the second is the sentinel).  With the default
    sentinel, in [{"a": {"result": "error"}, "result": 7}] the path
    ["a->result"] yields the root's [7], not the ["error"] stored under
    ["a"], and ["a[0]"] on [{"a": {"result": "error"}, 0: 8}] yields the
    root's [8]. *)
Theorem sentinel_equal_cursor_restarts_at_root
    (source : value) (keytypes : list keytype) (null v : value)
    (before after : list string) :
  py_eq null null = true ->
  Forall separator_free (before ++ after) ->
  nonempty (String.concat "->" after) = true ->
  run_elems source keytypes null null before = Normal v ->
  py_eq v null = true ->
  (exists r r0,
     jpath source (String.concat "->" (before ++ after)) keytypes null default_sep = Ok r /\
     jpath source (String.concat "->" after) keytypes null default_sep = Ok r0 /\
     sentinel_alike null r r0) /\
  (let tree := VDict [(KStr "a", VDict [(KStr "result", VStr "error")]);
                      (KStr "result", VInt 7); (KInt 0, VInt 8)] in
   jpath tree "a" default_keytypes nil default_sep = Ok nil /\
   index nil (KStr "result") = Ok (VStr "error") /\
   jpath tree "a->result" default_keytypes nil default_sep = Ok (VInt 7) /\
   jpath tree "a->['result']" default_keytypes nil default_sep = Ok (VInt 7) /\
   jpath tree "a[0]" default_keytypes nil default_sep = Ok (VInt 8)).
Proof.
  intros Hnull Hfree Hne Hrun Heq. split; [|vm_compute; repeat split].
  assert (Hfree' : Forall separator_free after)
    by (apply Forall_app in Hfree; tauto).
  unfold jpath, default_sep. rewrite Hne.
  rewrite (nonempty_concat_app "->" before after eq_refl Hne).
  cbn [py_split].
  assert (Hs : forall es, Forall separator_free es ->
                 nonempty (String.concat "->" es) = true ->
                 split_go "->" 0 (String.concat "->" es) = es).
  { intros [|e es] Hf Hn; [discriminate|now apply split_arrow_concat]. }
  rewrite (Hs _ Hfree (nonempty_concat_app "->" before after eq_refl Hne)).
  rewrite (Hs _ Hfree' Hne).
  rewrite run_elems_app, Hrun.
  eexists. eexists. split; [reflexivity|]. split; [reflexivity|].
  apply finish_alike; [exact Hnull|]. right. now split.
Qed.

Lemma sentinel_equal_cursor_restarts_at_root_witness :
  let tree := VDict [(KStr "a", VDict [(KStr "result", VStr "error")]);
                     (KStr "result", VInt 7)] in
  py_eq nil nil = true /\
  Forall separator_free (["a"] ++ ["result"])%list /\
  run_elems tree default_keytypes nil nil ["a"] = Normal nil /\
  exists r r0,
    jpath tree "a->result" default_keytypes nil default_sep = Ok r /\
    jpath tree "result" default_keytypes nil default_sep = Ok r0 /\
    sentinel_alike nil r r0.
Proof.
  intros tree.
  assert (Hf : Forall separator_free (["a"] ++ ["result"])%list)
    by (repeat constructor).
  split; [reflexivity|]. split; [exact Hf|]. split; [reflexivity|].
  exact (proj1 (sentinel_equal_cursor_restarts_at_root tree default_keytypes
                  nil nil ["a"] ["result"] eq_refl Hf eq_refl eq_refl eq_refl)).
Defined.

(** The same restart seen on an object and two identifiers, with exact
    equality of the results: when the member [p] equals the sentinel,
    [p->k] returns what [k] alone returns. *)
Lemma sentinel_valued_member_restarts_at_root
    (kvs : list (key * value)) (null v : value) (p k : string) :
  is_ident p = true ->
  is_ident k = true ->
  py_eq null null = true ->
  dict_get kvs (KStr p) = Some v ->
  py_eq v null = true ->
  jpath (VDict kvs) (p ++ "->" ++ k) default_keytypes null default_sep =
  jpath (VDict kvs) k default_keytypes null default_sep.
Proof.
  intros Hp Hk Hnull Hv Heq.
  unfold jpath, default_sep.
  rewrite (nonempty_app_l p ("->" ++ k)) by reflexivity.
  rewrite (ident_nonempty _ Hk).
  cbn [py_split].
  rewrite (split_ident_arrow p k Hp Hk).
  rewrite (split_arrow_single k)
    by (apply dash_free_no_arrow, words_dash_free, ident_words, Hk).
  cbn [run_elems].
  rewrite (ident_nonempty _ Hp), (ident_nonempty _ Hk).
  rewrite !do_elem_ident by assumption.
  rewrite <- (py_eq_container _ _ Heq).
  assert (Hroot : cursor (VDict kvs) null null = VDict kvs)
    by (unfold cursor; now rewrite Hnull).
  rewrite !Hroot.
  destruct (negb (is_container v)) eqn:Hc; [reflexivity|].
  cbn [index]. rewrite Hv.
  rewrite do_elem_ident by assumption. rewrite Hc.
  unfold cursor. rewrite Heq. cbn [index].
  destruct (dict_get kvs (KStr k)); reflexivity.
Qed.

(** Under the default sentinel [==] is identity of values: only
    [{"result": "error"}] equals it, so the two results above coincide. *)
Lemma py_eq_nil_inv (v : value) : py_eq v nil = true -> v = nil.
Proof.
  intros H. destruct v as [| | | | |kvs]; try discriminate.
  destruct kvs as [|[k w] [|kv kvs]]; try discriminate.
  unfold nil in H. cbn [py_eq List.length Nat.eqb andb dict_get] in H.
  destruct k as [s|z]; cbn [key_eqb] in H; [|discriminate].
  destruct (String.eqb_spec "result" s) as [<-|]; [|discriminate].
  destruct w as [| | |e| |]; try discriminate.
  cbn [py_eq] in H. rewrite andb_true_r in H.
  apply String.eqb_eq in H. now subst.
Qed.

Lemma sentinel_alike_nil (x y : value) : sentinel_alike nil x y -> x = y.
Proof. intros [H|[H ->]]; [exact H|now apply py_eq_nil_inv]. Qed.

(** * Further properties *)

(** ** Strings *)

Lemma append_assoc (x y z : string) : ((x ++ y) ++ z = x ++ (y ++ z))%string.
Proof. induction x as [|c x IH]; [reflexivity|]. cbn. now rewrite IH. Qed.

Lemma append_nil_r (x : string) : (x ++ EmptyString)%string = x.
Proof. induction x as [|c x IH]; [reflexivity|]. cbn. now rewrite IH. Qed.

Lemma forallb_app_string (p : ascii -> bool) (x y : string) :
  string_forallb p (x ++ y) = string_forallb p x && string_forallb p y.
Proof.
  induction x as [|c x IH]; [reflexivity|]. cbn. now rewrite IH, andb_assoc.
Qed.

Lemma forallb_weaken (p q : ascii -> bool) (s : string) :
  (forall c, p c = true -> q c = true) ->
  string_forallb p s = true -> string_forallb q s = true.
Proof.
  intros Hpq. induction s as [|c s IH]; [reflexivity|]. cbn. intros H.
  apply andb_true_iff in H as [Hc Hs]. now rewrite (Hpq _ Hc), IH.
Qed.

(** ** The regular-expression engine *)

Section RegexFacts.

Variable group : string -> nat.
Hypothesis group_needs_bracket :
  forall c r, Ascii.eqb c "[" = false -> group (String c r) = O.
Hypothesis group_of_empty : group EmptyString = O.

Lemma re_run_fuel_stable (f1 : nat) :
  forall f2 s,
    (String.length s <= f1)%nat -> (String.length s <= f2)%nat ->
    re_run_fuel group f1 s = re_run_fuel group f2 s.
Proof.
  induction f1 as [|f1 IH]; intros f2 s H1 H2.
  - destruct s; [|cbn in H1; lia]. destruct f2; [reflexivity|].
    cbn. now rewrite group_of_empty.
  - destruct f2 as [|f2].
    + destruct s; [|cbn in H2; lia]. cbn. now rewrite group_of_empty.
    + cbn [re_run_fuel]. destruct (group s) as [|n]; [reflexivity|].
      f_equal. apply IH; rewrite string_drop_length; lia.
Qed.

(** The run at the head of [s] obeys the equation of [(group)+]. *)
Lemma re_run_unfold (s : string) :
  re_run group s =
  match group s with
  | O => O
  | n => (n + re_run group (string_drop n s))%nat
  end.
Proof.
  unfold re_run. destruct s as [|c s].
  - cbn. now rewrite group_of_empty.
  - cbn [String.length re_run_fuel].
    destruct (group (String c s)) as [|n]; [reflexivity|].
    f_equal. apply re_run_fuel_stable; rewrite string_drop_length;
      cbn [String.length]; lia.
Qed.

Lemma re_run_no_open (c : ascii) (r : string) :
  Ascii.eqb c "[" = false -> re_run group (String c r) = O.
Proof. intros H. rewrite re_run_unfold. now rewrite (group_needs_bracket _ _ H). Qed.

Lemma re_search_words (s : string) :
  string_forallb is_word s = true -> re_search group s = None.
Proof.
  induction s as [|c s IH]; intros H; [reflexivity|].
  cbn [string_forallb] in H. apply andb_true_iff in H as [Hc Hs].
  cbn [re_search].
  now rewrite (re_run_no_open _ _ (word_not_open _ Hc)), (IH Hs).
Qed.

Lemma re_sub_go_skips (s : string) :
  forall n, (String.length s <= n)%nat -> re_sub_go group n s = EmptyString.
Proof.
  induction s as [|c s IH]; intros n H; [reflexivity|].
  destruct n as [|n]; cbn [String.length] in H; [lia|].
  cbn [re_sub_go]. apply IH. lia.
Qed.

(** A name of word characters followed by a text that is one whole run:
    the run is found and the name is what [sub] leaves. *)
Lemma re_search_name_run (name g : string) :
  string_forallb is_word name = true ->
  nonempty g = true ->
  re_run group g = String.length g ->
  re_search group (name ++ g) = Some g.
Proof.
  intros Hp Hg Hr. induction name as [|c p IH].
  - destruct g as [|x g]; [discriminate|].
    cbn [String.append re_search]. rewrite Hr.
    cbn [String.length]. now rewrite <- (string_take_all (String x g)) at 2.
  - cbn [string_forallb] in Hp. apply andb_true_iff in Hp as [Hc Hp].
    cbn [String.append re_search].
    now rewrite (re_run_no_open _ _ (word_not_open _ Hc)), (IH Hp).
Qed.

Lemma re_sub_name_run (name g : string) :
  string_forallb is_word name = true ->
  nonempty g = true ->
  re_run group g = String.length g ->
  re_sub group (name ++ g) = name.
Proof.
  unfold re_sub. intros Hp Hg Hr. induction name as [|c p IH].
  - destruct g as [|x g]; [discriminate|].
    cbn [String.append re_sub_go]. rewrite Hr.
    cbn [String.length]. now apply re_sub_go_skips.
  - cbn [string_forallb] in Hp. apply andb_true_iff in Hp as [Hc Hp].
    cbn [String.append re_sub_go].
    now rewrite (re_run_no_open _ _ (word_not_open _ Hc)), (IH Hp).
Qed.

(** *** Runs of well-formed tokens *)

Variable ok : token -> bool.
Hypothesis group_of_token :
  forall t rest, ok t = true ->
    group (token_text t ++ rest) = String.length (token_text t).

Lemma token_text_nonempty (t : token) : exists n, String.length (token_text t) = S n.
Proof. destruct t; cbn; eauto. Qed.

Lemma re_run_tokens (ts : list token) (rest : string) :
  forallb ok ts = true ->
  re_run group (tokens_text ts ++ rest) =
  (String.length (tokens_text ts) + re_run group rest)%nat.
Proof.
  induction ts as [|t ts IH]; intros H; [reflexivity|].
  cbn [forallb] in H. apply andb_true_iff in H as [Ht Hts].
  cbn [tokens_text]. rewrite append_assoc, re_run_unfold.
  rewrite (group_of_token _ _ Ht).
  pose proof (string_drop_app (token_text t) (tokens_text ts ++ rest)) as Hd.
  rewrite length_app.
  destruct (token_text_nonempty t) as [n Hn]. rewrite Hn in Hd |- *.
  cbv zeta. rewrite Hd, (IH Hts). lia.
Qed.

Lemma re_run_tokens_whole (ts : list token) :
  forallb ok ts = true ->
  re_run group (tokens_text ts) = String.length (tokens_text ts).
Proof.
  intros H. rewrite <- (append_nil_r (tokens_text ts)) at 1.
  rewrite (re_run_tokens _ _ H), re_run_unfold, group_of_empty. lia.
Qed.

Lemma tokens_text_nonempty (t : token) (ts : list token) :
  nonempty (tokens_text (t :: ts)) = true.
Proof. destruct t; reflexivity. Qed.

(** The tokenizer on [name[..][..]]: [search] returns the subscripts,
    [sub] returns the name. *)
Lemma re_search_element (name : string) (t : token) (ts : list token) :
  string_forallb is_word name = true ->
  forallb ok (t :: ts) = true ->
  re_search group (name ++ tokens_text (t :: ts)) = Some (tokens_text (t :: ts)) /\
  re_sub group (name ++ tokens_text (t :: ts)) = name.
Proof.
  intros Hn Hts. split.
  - apply re_search_name_run; auto using tokens_text_nonempty, re_run_tokens_whole.
  - apply re_sub_name_run; auto using tokens_text_nonempty, re_run_tokens_whole.
Qed.

End RegexFacts.

(** ** The two [subscript_re] as instances of the engine *)

Lemma run_len_fuel_is_re_run (f : nat) :
  forall s, run_len_fuel f s = re_run_fuel group_len f s.
Proof.
  induction f as [|f IH]; intros s; [reflexivity|].
  cbn [run_len_fuel re_run_fuel]. destruct (group_len s); [reflexivity|].
  now rewrite IH.
Qed.

Lemma run_len_is_re_run (s : string) : run_len s = re_run group_len s.
Proof. apply run_len_fuel_is_re_run. Qed.

Lemma subscript_search_is_re_search (s : string) :
  subscript_search s = re_search group_len s.
Proof.
  induction s as [|c s IH]; [reflexivity|].
  cbn [subscript_search re_search]. rewrite run_len_is_re_run, IH. reflexivity.
Qed.

Lemma subscript_sub_is_re_sub (s : string) :
  subscript_sub s = re_sub group_len s.
Proof.
  unfold subscript_sub, re_sub. generalize 0%nat.
  induction s as [|c s IH]; intros k; [reflexivity|].
  cbn [subscript_sub_go re_sub_go]. rewrite run_len_is_re_run.
  destruct k; [|apply IH]. destruct (re_run group_len (String c s)); now rewrite IH.
Qed.

Lemma number_digits (ds : string) :
  is_number ds = true ->
  exists c r, ds = String c r /\ is_digit c = true /\ string_forallb is_digit r = true.
Proof.
  unfold is_number. destruct ds as [|c r]; [discriminate|]. cbn.
  intros H. apply andb_true_iff in H as [Hc Hr]. eauto.
Qed.

Lemma token_text_int_app (c : ascii) (r rest : string) :
  (token_text (TInt (String c r)) ++ rest)%string =
  String "[" (String c (r ++ String "]" rest)).
Proof. cbn. now rewrite append_assoc. Qed.

Lemma token_text_str_app (q : ascii) (k rest : string) :
  (token_text (TStr q k) ++ rest)%string =
  String "[" (String q (k ++ String q (String "]" rest))).
Proof. cbn. now rewrite append_assoc. Qed.

Lemma token_text_int_length (ds : string) :
  String.length (token_text (TInt ds)) = (String.length ds + 2)%nat.
Proof. cbn. rewrite length_app. cbn. lia. Qed.

(** [subscript_re] of [jpath] takes a well-formed token whole, whatever
    follows it. *)
Lemma group_len_token (t : token) (rest : string) :
  token_ok t = true ->
  group_len (token_text t ++ rest) = String.length (token_text t).
Proof.
  destruct t as [ds|q k]; cbn [token_ok]; intros H.
  - destruct (number_digits _ H) as (c & r & -> & Hc & Hr).
    rewrite token_text_int_app, token_text_int_length.
    unfold group_len. cbv zeta. rewrite Ascii.eqb_refl, Hc. cbn [negb].
    rewrite (take_while_len_app is_digit r "]" rest Hr eq_refl).
    rewrite string_drop_app. cbn [head_is String.length].
    rewrite Ascii.eqb_refl. lia.
  - apply andb_true_iff in H as [Hq Hk].
    rewrite token_text_str_app.
    change (token_text (TStr q k)) with (quoted_group q k).
    rewrite quoted_group_length.
    unfold group_len. cbv zeta. rewrite Ascii.eqb_refl. cbn [negb].
    rewrite (quote_not_digit _ Hq), Hq.
    rewrite (take_while_len_app _ _ _ _ Hk (quote_not_key_char _ Hq)).
    rewrite string_drop_app. cbn [head_is].
    now rewrite !Ascii.eqb_refl.
Qed.

Lemma word_token_is_token (t : token) :
  word_token_ok t = true -> token_ok t = true.
Proof.
  destruct t as [ds|q k]; cbn; [auto|]. intros H.
  apply andb_true_iff in H as [H Hk]. apply andb_true_iff in H as [Hq _].
  now rewrite Hq, (words_key_chars _ Hk).
Qed.

Lemma quote_not_word (q : ascii) : is_quote q = true -> is_word q = false.
Proof. intros H. destruct (quote_cases _ H); subst; reflexivity. Qed.

(** [subscript_re] of [jdson] takes a token with a non-empty word key
    whole. *)
Lemma jdson_group_len_token (t : token) (rest : string) :
  word_token_ok t = true ->
  Jdson.group_len (token_text t ++ rest) = String.length (token_text t).
Proof.
  destruct t as [ds|q k]; cbn [word_token_ok]; intros H.
  - destruct (number_digits _ H) as (c & r & -> & Hc & Hr).
    rewrite token_text_int_app, token_text_int_length.
    unfold Jdson.group_len. cbv zeta. rewrite Ascii.eqb_refl, Hc. cbn [negb].
    rewrite (take_while_len_app is_digit r "]" rest Hr eq_refl).
    rewrite string_drop_app. cbn [head_is String.length].
    rewrite Ascii.eqb_refl. lia.
  - apply andb_true_iff in H as [H Hk]. apply andb_true_iff in H as [Hq Hne].
    rewrite token_text_str_app.
    change (token_text (TStr q k)) with (quoted_group q k).
    rewrite quoted_group_length.
    unfold Jdson.group_len. cbv zeta. rewrite Ascii.eqb_refl. cbn [negb].
    rewrite (quote_not_digit _ Hq), Hq.
    rewrite (take_while_len_app _ _ _ _ Hk (quote_not_word _ Hq)).
    pose proof (string_drop_app k (String q (String "]" rest))) as Hd.
    destruct k as [|x k]; [discriminate|]. cbn [String.length] in Hd |- *.
    rewrite Hd. cbn [head_is]. now rewrite !Ascii.eqb_refl.
Qed.

Lemma jdson_group_len_needs_bracket (c : ascii) (r : string) :
  Ascii.eqb c "[" = false -> Jdson.group_len (String c r) = O.
Proof.
  intros H. unfold Jdson.group_len. destruct r; [reflexivity|]. now rewrite H.
Qed.

(** ** Splitting token texts and typing them *)

Lemma token_text_brackets (t : token) :
  token_text t = String "[" (token_str t ++ String "]" EmptyString).
Proof. destruct t as [ds|q k]; [reflexivity|]. cbn. now rewrite append_assoc. Qed.

Lemma key_char_not_bracket (c : ascii) : is_key_char c = true -> is_bracket c = false.
Proof. intros H. by_char c. Qed.

Lemma digit_is_key_char (c : ascii) : is_digit c = true -> is_key_char c = true.
Proof. intros H. by_char c. Qed.

Lemma quote_not_bracket (q : ascii) : is_quote q = true -> is_bracket q = false.
Proof. intros H. destruct (quote_cases _ H); subst; reflexivity. Qed.

Lemma token_str_no_bracket (t : token) :
  token_ok t = true ->
  string_forallb (fun c => negb (is_bracket c)) (token_str t) = true /\
  nonempty (token_str t) = true.
Proof.
  destruct t as [ds|q k]; cbn [token_ok token_str]; intros H.
  - destruct (number_digits _ H) as (c & r & -> & Hc & Hr). split; [|reflexivity].
    apply forallb_weaken with (p := is_digit).
    + intros x Hx. now rewrite (key_char_not_bracket _ (digit_is_key_char _ Hx)).
    + cbn. now rewrite Hc, Hr.
  - apply andb_true_iff in H as [Hq Hk]. split; [|reflexivity].
    unfold quoted. cbn [string_forallb]. rewrite (quote_not_bracket _ Hq).
    cbn [negb andb]. rewrite forallb_app_string. cbn [string_forallb].
    rewrite (quote_not_bracket _ Hq). cbn [negb andb]. rewrite andb_true_r.
    apply forallb_weaken with (p := is_key_char); [|exact Hk].
    intros x Hx. now rewrite (key_char_not_bracket _ Hx).
Qed.

Lemma brackets_split_token (s rest : string) :
  string_forallb (fun c => negb (is_bracket c)) s = true ->
  brackets_split (s ++ String "]" rest) = s :: brackets_split rest.
Proof.
  induction s as [|c s IH]; intros H.
  - reflexivity.
  - cbn [string_forallb] in H. apply andb_true_iff in H as [Hc Hs].
    apply negb_true_iff in Hc. cbn [String.append brackets_split].
    now rewrite Hc, (IH Hs).
Qed.

(** [brackets_re.split] and the filter recover the token texts. *)
Lemma subscript_tokens_of_text (ts : list token) :
  forallb token_ok ts = true ->
  subscript_tokens (tokens_text ts) = map token_str ts.
Proof.
  unfold subscript_tokens. induction ts as [|t ts IH]; intros H; [reflexivity|].
  cbn [forallb] in H. apply andb_true_iff in H as [Ht Hts].
  destruct (token_str_no_bracket _ Ht) as [Hb Hne].
  cbn [tokens_text map]. rewrite token_text_brackets.
  cbn [String.append brackets_split]. replace (is_bracket "[") with true by reflexivity.
  rewrite append_assoc. cbn [String.append].
  rewrite (brackets_split_token _ _ Hb). cbn [filter nonempty].
  rewrite Hne. now rewrite (IH Hts).
Qed.

Lemma int_digits_decimal (ds : string) :
  forall acc prev,
    string_forallb is_digit ds = true ->
    prev = true \/ ds <> EmptyString ->
    int_digits acc prev ds = Some (decimal_from acc ds).
Proof.
  induction ds as [|c ds IH]; intros acc prev Hd Hne.
  - destruct Hne as [->|Hne]; [reflexivity|congruence].
  - cbn [string_forallb] in Hd. apply andb_true_iff in Hd as [Hc Hd].
    cbn [int_digits decimal_from]. rewrite Hc. apply IH; auto.
Qed.

(** [int] of a string of digits is its decimal value. *)
Lemma py_int_number (ds : string) :
  is_number ds = true -> py_int ds = Some (decimal ds).
Proof.
  intros H. destruct (number_digits _ H) as (c & r & -> & Hc & Hr).
  unfold py_int, decimal. cbn [drop_while].
  rewrite (digit_not_space _ Hc).
  destruct (digit_not_sign _ Hc) as [-> ->].
  apply int_digits_decimal; [cbn; now rewrite Hc, Hr|now right].
Qed.

(** The key of a well-formed token. *)
Lemma subscript_key_token (t : token) :
  token_ok t = true -> subscript_key (token_str t) = token_key t.
Proof.
  destruct t as [ds|q k]; cbn [token_ok token_str token_key]; intros H.
  - unfold subscript_key. now rewrite (py_int_number _ H).
  - apply andb_true_iff in H as [Hq Hk]. now apply subscript_key_quoted.
Qed.

(** ** What the evaluator sees of a well-formed element *)

Section ElementSemantics.

Variables (source : value) (keytypes : list keytype) (null : value).

Lemma apply_subscripts_keys (ts : list token) :
  forallb token_ok ts = true ->
  forall obj,
    apply_subscripts source null obj (map token_str ts) =
    apply_keys source null obj (map token_key ts).
Proof.
  induction ts as [|t ts IH]; intros H obj; [reflexivity|].
  cbn [forallb] in H. apply andb_true_iff in H as [Ht Hts].
  cbn [map apply_subscripts apply_keys]. rewrite (subscript_key_token _ Ht).
  destruct (negb (is_container obj)); [reflexivity|].
  destruct (index (cursor source null obj) (token_key t)); [apply IH, Hts|reflexivity].
Qed.

(** [name[..][..]]: the name is looked up as a string key (the cursor is
    kept when there is no name), then the typed keys are applied. *)
Lemma do_elem_subscripted (obj : value) (name : string) (t : token) (ts : list token) :
  string_forallb is_word name = true ->
  forallb token_ok (t :: ts) = true ->
  do_elem source keytypes null obj (name ++ tokens_text (t :: ts)) =
  match
    (if nonempty name then index (cursor source null obj) (KStr name)
     else Ok (cursor source null obj))
  with
  | Raise e => Raised e obj
  | Ok o => apply_keys source null o (map token_key (t :: ts))
  end.
Proof.
  intros Hn Hts. unfold do_elem.
  rewrite subscript_search_is_re_search, subscript_sub_is_re_sub.
  destruct (re_search_element group_len group_len_no_open eq_refl token_ok
              group_len_token name t ts Hn Hts) as [-> ->].
  rewrite (subscript_tokens_of_text _ Hts).
  destruct (nonempty name); [|apply (apply_subscripts_keys _ Hts)].
  destruct (index (cursor source null obj) (KStr name)) as [o|e]; [|reflexivity].
  apply (apply_subscripts_keys _ Hts).
Qed.

End ElementSemantics.

Lemma digit_is_word (c : ascii) : is_digit c = true -> is_word c = true.
Proof. unfold is_word. now intros ->. Qed.

Lemma number_words (ds : string) :
  is_number ds = true -> string_forallb is_word ds = true.
Proof.
  unfold is_number. intros H. apply andb_true_iff in H as [_ H].
  exact (forallb_weaken _ _ _ digit_is_word H).
Qed.

(** A bare number with the default key types: the [str] turn, then the
    [int] turn on what the [str] turn left. *)
Lemma do_elem_number (source null obj : value) (ds : string) :
  is_number ds = true ->
  do_elem source default_keytypes null obj ds =
  if negb (is_container obj) then Raised TypeError obj
  else Normal (try_keytype source null ds
                 (try_keytype source null ds obj KT_str) KT_int).
Proof.
  intros H. unfold do_elem. now rewrite (search_words _ (number_words _ H)).
Qed.

(** ** Paths that resolve *)

Lemma access_is_index_path (null : value) (steps : list step) :
  forall fresh x v,
    access null fresh x steps = Some v ->
    index_path x (map step_key steps) = Ok v.
Proof.
  induction steps as [|s steps IH]; intros fresh x v H; cbn in H |- *.
  - now injection H as ->.
  - destruct (is_container x && (fresh || negb (py_eq x null)) && step_fits s x);
      [|discriminate].
    destruct (index x (step_key s)) as [y|]; [|discriminate]. eauto.
Qed.

Lemma access_app (null : value) (s1 : list step) :
  forall fresh x s2 v,
    access null fresh x (s1 ++ s2) = Some v ->
    exists y, access null fresh x s1 = Some y /\
              access null (match s1 with [] => fresh | _ => false end) y s2 = Some v.
Proof.
  induction s1 as [|s s1 IH]; intros fresh x s2 v H.
  - exists x. now split.
  - cbn [app access] in H |- *.
    destruct (is_container x && (fresh || negb (py_eq x null)) && step_fits s x);
      [|discriminate].
    destruct (index x (step_key s)) as [y|]; [|discriminate].
    destruct (IH _ _ _ _ H) as [z [Hz Hv]]. exists z. split; [exact Hz|].
    now destruct s1.
Qed.

Section Resolution.

Variables (source : value) (null : value).
Hypothesis null_refl : py_eq null null = true.
Hypothesis null_container : is_container null = true.


Lemma access_head (fresh : bool) (obj x : value) (s : step) (rest : list step)
    (v : value) :
  cursor_stands source null fresh obj x ->
  access null fresh x (s :: rest) = Some v ->
  is_container obj = true /\ is_container x = true /\ step_fits s x = true /\
  cursor source null obj = x /\
  exists y, index x (step_key s) = Ok y /\ access null false y rest = Some v.
Proof.
  intros Hs H. cbn [access] in H.
  destruct (is_container x) eqn:Hc; [|discriminate].
  destruct (fresh || negb (py_eq x null)) eqn:Hf; [|discriminate].
  destruct (step_fits s x) eqn:Hfit; [|discriminate]. cbn [andb] in H.
  destruct (index x (step_key s)) as [y|] eqn:Hi; [|discriminate].
  assert (Hcur : cursor source null obj = x /\ is_container obj = true).
  { unfold cursor_stands, cursor in *. destruct fresh.
    - destruct Hs as [-> ->]. now rewrite null_refl.
    - subst obj. cbn in Hf. apply negb_true_iff in Hf. now rewrite Hf. }
  destruct Hcur as [Hcur Hco]. repeat split; auto. eauto.
Qed.

Lemma apply_keys_access (ks : list key) :
  forall fresh x (rest : list step) v,
    (fresh = true -> x = source) ->
    access null fresh x (map Key ks ++ rest) = Some v ->
    exists y,
      apply_keys source null x ks = Normal y /\
      access null (match ks with [] => fresh | _ => false end) y rest = Some v.
Proof.
  induction ks as [|k ks IH]; intros fresh x rest v Hx H.
  - exists x. now split.
  - cbn [map app access] in H.
    destruct (is_container x) eqn:Hc; [|discriminate].
    destruct (fresh || negb (py_eq x null)) eqn:Hf; [|discriminate].
    cbn [step_fits andb step_key] in H.
    destruct (index x k) as [y|] eqn:Hi; [|discriminate].
    assert (Hcur : cursor source null x = x).
    { unfold cursor. destruct fresh.
      - rewrite (Hx eq_refl). now destruct (py_eq source null).
      - cbn in Hf. apply negb_true_iff in Hf. now rewrite Hf. }
    cbn [apply_keys]. rewrite Hc, Hcur, Hi. cbn [negb].
    destruct (IH false y rest v) as [z [Hz Hv]]; [discriminate|exact H|].
    exists z. split; [exact Hz|]. now destruct ks.
Qed.

(** One well-formed element moves the cursor along its steps. *)
Lemma do_elem_access (fresh : bool) (obj x : value) (e : element)
    (rest : list step) (v : value) :
  cursor_stands source null fresh obj x ->
  elem_ok e = true ->
  access null fresh x (elem_steps e ++ rest) = Some v ->
  exists y,
    do_elem source default_keytypes null obj (elem_text e) = Normal y /\
    access null false y rest = Some v.
Proof.
  intros Hs Hok H. destruct e as [n|ds|n ts]; cbn [elem_ok elem_steps elem_text] in *.
  - (* a bare identifier *)
    cbn [app] in H.
    destruct (access_head _ _ _ _ _ _ Hs H) as (Hco & _ & _ & Hcur & y & Hi & Hv).
    exists y. split; [|exact Hv].
    rewrite (do_elem_ident _ _ _ _ Hok), Hco, Hcur. cbn [negb step_key] in *.
    now rewrite Hi.
  - (* a bare number on an array *)
    cbn [app] in H.
    destruct (access_head _ _ _ _ _ _ Hs H) as (Hco & _ & Hfit & Hcur & y & Hi & Hv).
    exists y. split; [|exact Hv].
    rewrite (do_elem_number _ _ _ _ Hok), Hco. cbn [negb].
    cbn [step_fits] in Hfit. destruct x as [| | | |l|]; try discriminate.
    unfold try_keytype at 2. cbn [convert]. rewrite Hcur. cbn [index].
    unfold try_keytype. cbn [convert]. rewrite (py_int_number _ Hok), Hcur.
    cbn [step_key] in Hi. now rewrite Hi.
  - (* a name and subscripts *)
    apply andb_true_iff in Hok as [Hn Hts].
    destruct ts as [|t ts]; [discriminate|].
    rewrite (do_elem_subscripted _ _ _ _ _ _ _ Hn Hts).
    rewrite <- map_map in H. unfold name_steps in H.
    destruct (nonempty n) eqn:Hne.
    + cbn [app] in H.
      destruct (access_head _ _ _ _ _ _ Hs H) as (_ & _ & _ & Hcur & y & Hi & Hv).
      cbn [step_key] in Hi. rewrite Hcur, Hi.
      destruct (apply_keys_access (map token_key (t :: ts)) false y rest v)
        as [z [Hz Hv']]; [discriminate|exact Hv|].
      exists z. now split.
    + cbn [app] in H.
      assert (Hcur : cursor source null obj = x).
      { pose proof H as H'. cbn [map app] in H'.
        destruct (access_head _ _ _ _ _ _ Hs H') as (_ & _ & _ & Hcur & _).
        exact Hcur. }
      rewrite Hcur.
      destruct (apply_keys_access (map token_key (t :: ts)) fresh x rest v)
        as [z [Hz Hv']]; [|exact H|].
      * intros ->. now destruct Hs.
      * exists z. now split.
Qed.

Lemma elem_text_nonempty (e : element) :
  elem_ok e = true -> nonempty (elem_text e) = true.
Proof.
  destruct e as [n|ds|n ts]; cbn [elem_ok elem_text]; intros H.
  - now apply ident_nonempty.
  - unfold is_number in H. now apply andb_true_iff in H as [H _].
  - apply andb_true_iff in H as [_ H]. destruct ts as [|t ts]; [discriminate|].
    apply nonempty_app_l, tokens_text_nonempty.
Qed.

Lemma run_elems_access (es : list element) :
  forall fresh obj x v,
    cursor_stands source null fresh obj x ->
    forallb elem_ok es = true ->
    es <> [] ->
    access null fresh x (path_steps es) = Some v ->
    run_elems source default_keytypes null obj (map elem_text es) = Normal v.
Proof.
  induction es as [|e es IH]; intros fresh obj x v Hs Hok Hne H; [congruence|].
  cbn [forallb] in Hok. apply andb_true_iff in Hok as [He Hes].
  unfold path_steps in H. cbn [flat_map] in H.
  destruct (do_elem_access _ _ _ _ _ _ Hs He H) as [y [Hd Hv]].
  cbn [map run_elems]. rewrite (elem_text_nonempty _ He), Hd.
  destruct es as [|e' es].
  - cbn in Hv |- *. now injection Hv as ->.
  - apply (IH false y y v); [reflexivity|exact Hes|discriminate|exact Hv].
Qed.

End Resolution.

(** ** Well-formed elements hold no separator *)

Lemma plain_separator_free (s : string) : plain s = true -> separator_free s.
Proof.
  unfold plain, separator_free. induction s as [|c s IH]; intros H; [now split|].
  cbn [string_forallb] in H. apply andb_true_iff in H as [Hc Hs].
  unfold is_plain in Hc. apply andb_true_iff in Hc as [Hd Hl].
  apply negb_true_iff in Hd. apply negb_true_iff in Hl.
  destruct (IH Hs) as [Ha Hb]. cbn [contains is_prefix]. rewrite Hd, Hl, Ha, Hb.
  now split.
Qed.

Lemma plain_app (x y : string) : plain (x ++ y) = plain x && plain y.
Proof. apply forallb_app_string. Qed.

Lemma key_char_plain (c : ascii) : is_key_char c = true -> is_plain c = true.
Proof. intros H. by_char c. Qed.

Lemma word_plain (c : ascii) : is_word c = true -> is_plain c = true.
Proof. intros H. apply key_char_plain, word_is_key_char, H. Qed.

Lemma quote_plain (q : ascii) : is_quote q = true -> is_plain q = true.
Proof. intros H. destruct (quote_cases _ H); subst; reflexivity. Qed.

Lemma words_plain (s : string) : string_forallb is_word s = true -> plain s = true.
Proof. apply forallb_weaken, word_plain. Qed.

Lemma token_text_plain (t : token) : token_ok t = true -> plain (token_text t) = true.
Proof.
  destruct t as [ds|q k]; cbn [token_ok token_text]; intros H.
  - pose proof (words_plain _ (number_words _ H)) as Hp.
    unfold plain in *. cbn [string_forallb]. rewrite forallb_app_string, Hp.
    reflexivity.
  - apply andb_true_iff in H as [Hq Hk]. unfold quoted_group, plain.
    cbn [string_forallb]. rewrite forallb_app_string. cbn [string_forallb].
    rewrite (quote_plain _ Hq).
    rewrite (forallb_weaken _ _ _ key_char_plain Hk). reflexivity.
Qed.

Lemma tokens_text_plain (ts : list token) :
  forallb token_ok ts = true -> plain (tokens_text ts) = true.
Proof.
  induction ts as [|t ts IH]; intros H; [reflexivity|].
  cbn [forallb] in H. apply andb_true_iff in H as [Ht Hts].
  cbn [tokens_text]. now rewrite plain_app, (token_text_plain _ Ht), (IH Hts).
Qed.

Lemma elem_text_plain (e : element) : elem_ok e = true -> plain (elem_text e) = true.
Proof.
  destruct e as [n|ds|n ts]; cbn [elem_ok elem_text]; intros H.
  - apply words_plain, ident_words, H.
  - apply words_plain, number_words, H.
  - apply andb_true_iff in H as [Hn Hts]. rewrite plain_app, (words_plain _ Hn).
    destruct ts; [discriminate|]. now rewrite tokens_text_plain.
Qed.

Lemma elems_separator_free (es : list element) :
  forallb elem_ok es = true -> Forall separator_free (map elem_text es).
Proof.
  induction es as [|e es IH]; intros H; [constructor|].
  cbn [forallb] in H. apply andb_true_iff in H as [He Hes].
  constructor; [apply plain_separator_free, elem_text_plain, He|apply IH, Hes].
Qed.

Lemma nonempty_concat_elems (sep : string) (e : element) (es : list element) :
  nonempty sep = true ->
  elem_ok e = true ->
  nonempty (String.concat sep (map elem_text (e :: es))) = true.
Proof.
  intros Hsep He. rewrite (nonempty_concat _ _ Hsep). cbn [map].
  destruct (map elem_text es); [apply elem_text_nonempty, He|reflexivity].
Qed.

Lemma split_arrow_joined (es : list string) :
  Forall separator_free es ->
  nonempty (String.concat "->" es) = true ->
  split_go "->" 0 (String.concat "->" es) = es.
Proof. destruct es; [discriminate|]. intros H _. now apply split_arrow_concat. Qed.

Lemma split_slash_joined (es : list string) :
  Forall separator_free es ->
  nonempty (String.concat "/" es) = true ->
  split_go "/" 0 (String.concat "/" es) = es.
Proof. destruct es; [discriminate|]. intros H _. now apply split_slash_concat. Qed.

(** The walk of a well-formed path, in either dialect. *)
Lemma jpath_reads_path (source null : value) (es : list element) (v : value) :
  py_eq null null = true ->
  is_container null = true ->
  es <> [] ->
  forallb elem_ok es = true ->
  access null true source (path_steps es) = Some v ->
  jpath source (String.concat "->" (map elem_text es)) default_keytypes null "->"
    = Ok v /\
  jpath source (String.concat "/" (map elem_text es)) default_keytypes null "/"
    = Ok v.
Proof.
  intros Hnull Hcont Hne Hok Hacc.
  destruct es as [|e es]; [congruence|].
  pose proof Hok as Hok'. cbn [forallb] in Hok'.
  apply andb_true_iff in Hok' as [He _].
  unfold jpath.
  rewrite (nonempty_concat_elems "->" e es eq_refl He).
  rewrite (nonempty_concat_elems "/" e es eq_refl He). cbn [py_split].
  rewrite (split_arrow_joined _ (elems_separator_free (e :: es) Hok)
             (nonempty_concat_elems "->" e es eq_refl He)).
  rewrite (split_slash_joined _ (elems_separator_free (e :: es) Hok)
             (nonempty_concat_elems "/" e es eq_refl He)).
  rewrite (run_elems_access source null Hnull Hcont (e :: es) true null source v);
    [now split|now split|exact Hok|exact Hne|exact Hacc].
Qed.

(** X1: a path of well-formed elements whose plain reading
    [source[k1][k2]...] succeeds through lists and dictionaries that
    differ from the sentinel resolves to that reading. *)
Theorem jpath_resolves_well_formed_path
    (source null : value) (es : list element) (v : value) :
  py_eq null null = true ->
  is_container null = true ->
  es <> [] ->
  forallb elem_ok es = true ->
  access null true source (path_steps es) = Some v ->
  jpath source (String.concat "->" (map elem_text es)) default_keytypes null
        default_sep = Ok v /\
  index_path source (map step_key (path_steps es)) = Ok v.
Proof.
  intros Hnull Hcont Hne Hok Hacc. split.
  - exact (proj1 (jpath_reads_path source null es v Hnull Hcont Hne Hok Hacc)).
  - eapply access_is_index_path; eauto.
Qed.

Lemma jpath_resolves_well_formed_path_witness :
  let es := [Name "test"; Subscripted "path" [TInt "0"];
             Subscripted "to" [TInt "1"; TStr "'" "k"]] in
  let tree := VDict [(KStr "test", VDict [(KStr "path", VList [VDict
                [(KStr "to", VList [VInt 0; VDict [(KStr "k", VInt 5)]])]])])] in
  py_eq nil nil = true /\ is_container nil = true /\ es <> [] /\
  forallb elem_ok es = true /\
  access nil true tree (path_steps es) = Some (VInt 5) /\
  jpath tree "test->path[0]->to[1]['k']" default_keytypes nil default_sep = Ok (VInt 5).
Proof.
  intros es tree.
  assert (Hne : es <> []) by discriminate.
  repeat (split; [reflexivity || exact Hne|]).
  exact (proj1 (jpath_resolves_well_formed_path tree nil es (VInt 5)
                  eq_refl eq_refl Hne eq_refl eq_refl)).
Defined.

(** X2: the same path written with ["/"] resolves through [jxpath],
    whatever sentinel the caller passes: the walk is judged against the
    module's [nil], which [jxpath] hands to [jpath]. *)
Theorem jxpath_resolves_well_formed_path
    (source null : value) (es : list element) (v : value) :
  es <> [] ->
  forallb elem_ok es = true ->
  access nil true source (path_steps es) = Some v ->
  jxpath source (String.concat "/" (map elem_text es)) default_keytypes null = Ok v.
Proof.
  intros Hne Hok Hacc. unfold jxpath.
  exact (proj2 (jpath_reads_path source nil es v eq_refl eq_refl Hne Hok Hacc)).
Qed.

Lemma jxpath_resolves_well_formed_path_witness :
  let es := [Name "test"; Subscripted "path" [TInt "0"]; Name "to"] in
  let tree := VDict [(KStr "test", VDict [(KStr "path", VList [VDict
                [(KStr "to", VInt 3)]])])] in
  es <> [] /\ forallb elem_ok es = true /\
  access nil true tree (path_steps es) = Some (VInt 3) /\
  jxpath tree "test/path[0]/to" default_keytypes VNone = Ok (VInt 3).
Proof.
  intros es tree.
  assert (Hne : es <> []) by discriminate.
  repeat (split; [reflexivity || exact Hne|]).
  exact (jxpath_resolves_well_formed_path tree VNone es (VInt 3) Hne eq_refl eq_refl).
Defined.


(** X3: the tokenizer recovers a well-formed element.  On a name of word
    characters followed by well-formed bracket groups, [subscript_re]
    finds exactly the groups, removing them leaves the name,
    [brackets_re] splits the groups into the token texts, and each text
    is typed as its token: digits as their decimal value, a quoted key
    as the string between the quotes. *)
Theorem tokenizer_recovers_element (name : string) (t : token) (ts : list token) :
  string_forallb is_word name = true ->
  forallb token_ok (t :: ts) = true ->
  subscript_search (name ++ tokens_text (t :: ts)) = Some (tokens_text (t :: ts)) /\
  subscript_sub (name ++ tokens_text (t :: ts)) = name /\
  subscript_tokens (tokens_text (t :: ts)) = map token_str (t :: ts) /\
  map subscript_key (map token_str (t :: ts)) = map token_key (t :: ts).
Proof.
  intros Hn Hts.
  rewrite subscript_search_is_re_search, subscript_sub_is_re_sub.
  destruct (re_search_element group_len group_len_no_open eq_refl token_ok
              group_len_token name t ts Hn Hts) as [-> ->].
  repeat split; [now apply subscript_tokens_of_text|].
  revert Hts. generalize (t :: ts). intros l. induction l as [|x l IH]; intros H.
  - reflexivity.
  - cbn [forallb] in H. apply andb_true_iff in H as [Hx Hl].
    cbn [map]. now rewrite (subscript_key_token _ Hx), (IH Hl).
Qed.

Lemma tokenizer_recovers_element_witness :
  string_forallb is_word "arrays" = true /\
  forallb token_ok [TInt "007"; TStr "'" "test abc"] = true /\
  subscript_search "arrays[007]['test abc']" = Some "[007]['test abc']" /\
  subscript_sub "arrays[007]['test abc']" = "arrays" /\
  subscript_tokens "[007]['test abc']" = ["007"; "'test abc'"] /\
  map subscript_key ["007"; "'test abc'"] = [KInt 7; KStr "test abc"].
Proof.
  split; [reflexivity|]. split; [reflexivity|].
  exact (tokenizer_recovers_element "arrays" (TInt "007")
           [TStr "'" "test abc"] eq_refl eq_refl).
Defined.

(** ** The result depends on the typed keys only *)

Lemma do_elem_same_keys (source : value) (keytypes : list keytype) (null obj : value)
    (e1 e2 : element) :
  same_keys e1 e2 ->
  elem_ok e1 = true -> elem_ok e2 = true ->
  do_elem source keytypes null obj (elem_text e1) =
  do_elem source keytypes null obj (elem_text e2).
Proof.
  destruct e1 as [n1|d1|n1 ts1], e2 as [n2|d2|n2 ts2]; cbn [same_keys];
    try contradiction; try (now intros ->).
  intros [-> Hk] H1 H2. cbn [elem_ok elem_text] in *.
  apply andb_true_iff in H1 as [Hn H1]. apply andb_true_iff in H2 as [_ H2].
  destruct ts1 as [|t1 ts1]; [discriminate|]. destruct ts2 as [|t2 ts2]; [discriminate|].
  rewrite (do_elem_subscripted _ _ _ _ _ _ _ Hn H1).
  rewrite (do_elem_subscripted _ _ _ _ _ _ _ Hn H2).
  now rewrite Hk.
Qed.

Lemma run_elems_same_keys (source : value) (keytypes : list keytype) (null : value)
    (es1 es2 : list element) :
  Forall2 same_keys es1 es2 ->
  forallb elem_ok es1 = true -> forallb elem_ok es2 = true ->
  forall obj,
    run_elems source keytypes null obj (map elem_text es1) =
    run_elems source keytypes null obj (map elem_text es2).
Proof.
  induction 1 as [|e1 e2 l1 l2 He Hl IH]; intros H1 H2 obj; [reflexivity|].
  cbn [forallb] in H1, H2.
  apply andb_true_iff in H1 as [Ho1 H1]. apply andb_true_iff in H2 as [Ho2 H2].
  cbn [map run_elems].
  rewrite (elem_text_nonempty _ Ho1), (elem_text_nonempty _ Ho2).
  rewrite (do_elem_same_keys _ _ _ _ _ _ He Ho1 Ho2).
  destruct (do_elem source keytypes null obj (elem_text e2)); [|reflexivity].
  now apply IH.
Qed.

(** X4: the result depends on the names and the typed keys only.  Two
    paths whose elements have the same names and the same keys, however
    the subscripts are written (['k'] or a double-quoted k, [01] or
    [1]), give the same result for every tree, key types and sentinel. *)
Theorem same_keys_same_result
    (source : value) (keytypes : list keytype) (null : value)
    (es1 es2 : list element) :
  Forall2 same_keys es1 es2 ->
  forallb elem_ok es1 = true ->
  forallb elem_ok es2 = true ->
  jpath source (String.concat "->" (map elem_text es1)) keytypes null default_sep =
  jpath source (String.concat "->" (map elem_text es2)) keytypes null default_sep.
Proof.
  intros Hs H1 H2. unfold jpath, default_sep.
  destruct Hs as [|e1 e2 l1 l2 He Hl]; [reflexivity|].
  pose proof H1 as H1'. pose proof H2 as H2'. cbn [forallb] in H1', H2'.
  apply andb_true_iff in H1' as [Ho1 _]. apply andb_true_iff in H2' as [Ho2 _].
  rewrite (nonempty_concat_elems "->" e1 l1 eq_refl Ho1).
  rewrite (nonempty_concat_elems "->" e2 l2 eq_refl Ho2). cbn [py_split].
  rewrite (split_arrow_joined _ (elems_separator_free _ H1)
             (nonempty_concat_elems "->" e1 l1 eq_refl Ho1)).
  rewrite (split_arrow_joined _ (elems_separator_free _ H2)
             (nonempty_concat_elems "->" e2 l2 eq_refl Ho2)).
  now rewrite (run_elems_same_keys source keytypes null (e1 :: l1) (e2 :: l2)
                 (Forall2_cons _ _ He Hl) H1 H2).
Qed.

Lemma same_keys_same_result_witness :
  let es1 := [Name "test"; Subscripted "path" [TInt "0"; TStr "'" "to"]] in
  let es2 := [Name "test"; Subscripted "path" [TInt "00"; TStr dquote "to"]] in
  Forall2 same_keys es1 es2 /\
  forallb elem_ok es1 = true /\ forallb elem_ok es2 = true /\
  jpath d "test->path[0]['to']" default_keytypes nil default_sep =
  jpath d ("test->path[00]" ++ quoted_group dquote "to") default_keytypes nil
        default_sep.
Proof.
  intros es1 es2.
  assert (Hs : Forall2 same_keys es1 es2).
  { constructor; [reflexivity|]. constructor; [|constructor]. now split. }
  split; [exact Hs|]. split; [reflexivity|]. split; [reflexivity|].
  exact (same_keys_same_result d default_keytypes nil es1 es2 Hs eq_refl eq_refl).
Defined.

(** ** Empty elements *)

Lemma run_elems_skip_empty (source : value) (keytypes : list keytype) (null : value)
    (es : list string) :
  forall obj,
    run_elems source keytypes null obj (filter nonempty es) =
    run_elems source keytypes null obj es.
Proof.
  induction es as [|e es IH]; intros obj; [reflexivity|].
  cbn [filter run_elems]. destruct (nonempty e) eqn:He; [|apply IH].
  cbn [run_elems]. rewrite He.
  destruct (do_elem source keytypes null obj e); [apply IH|reflexivity].
Qed.

Lemma Forall_filter_nonempty (P : string -> Prop) (es : list string) :
  Forall P es -> Forall P (filter nonempty es).
Proof.
  induction 1 as [|e es He Hes IH]; [constructor|].
  cbn [filter]. destruct (nonempty e); [now constructor|exact IH].
Qed.

Lemma nonempty_concat_member (sep e : string) (es : list string) :
  nonempty sep = true -> In e es -> nonempty e = true ->
  nonempty (String.concat sep es) = true.
Proof.
  intros Hsep Hin He. rewrite (nonempty_concat _ _ Hsep).
  destruct es as [|x [|y es]]; [contradiction| |reflexivity].
  destruct Hin as [->|[]]. exact He.
Qed.

Lemma filter_nonempty_member (es : list string) :
  filter nonempty es <> [] ->
  exists e, In e es /\ In e (filter nonempty es) /\ nonempty e = true.
Proof.
  intros H. destruct (filter nonempty es) as [|e l] eqn:E; [congruence|].
  assert (Hin : In e (filter nonempty es)) by (rewrite E; now left).
  pose proof Hin as Hin'. apply filter_In in Hin' as [H1 H2].
  exists e. rewrite <- E. auto.
Qed.

(** X5: empty elements are skipped.  Doubled, leading and trailing
    separators do not change the result, as long as one element is not
    empty: the path evaluates as the path of its non-empty elements, in
    both dialects. *)
Theorem empty_elements_are_skipped
    (source : value) (keytypes : list keytype) (null : value) (es : list string) :
  Forall separator_free es ->
  filter nonempty es <> [] ->
  jpath source (String.concat "->" es) keytypes null default_sep =
  jpath source (String.concat "->" (filter nonempty es)) keytypes null default_sep /\
  jxpath source (String.concat "/" es) keytypes null =
  jxpath source (String.concat "/" (filter nonempty es)) keytypes null.
Proof.
  intros Hfree Hne.
  destruct (filter_nonempty_member _ Hne) as (e & Hin & Hin' & He).
  pose proof (Forall_filter_nonempty _ _ Hfree) as Hfree'.
  assert (Ha : forall sep, nonempty sep = true ->
                 nonempty (String.concat sep es) = true /\
                 nonempty (String.concat sep (filter nonempty es)) = true).
  { intros sep Hsep. split; eapply nonempty_concat_member; eauto. }
  destruct (Ha "->" eq_refl) as [Ha1 Ha2]. destruct (Ha "/" eq_refl) as [Hs1 Hs2].
  unfold jxpath, jpath, default_sep. rewrite Ha1, Ha2, Hs1, Hs2. cbn [py_split].
  rewrite (split_arrow_joined _ Hfree Ha1), (split_arrow_joined _ Hfree' Ha2).
  rewrite (split_slash_joined _ Hfree Hs1), (split_slash_joined _ Hfree' Hs2).
  now rewrite !run_elems_skip_empty.
Qed.

Lemma empty_elements_are_skipped_witness :
  Forall separator_free [""; ""; "test"; ""; "path[0]"; ""] /\
  filter nonempty [""; ""; "test"; ""; "path[0]"; ""] <> [] /\
  jpath d "->->test->->path[0]->" default_keytypes nil default_sep =
  jpath d "test->path[0]" default_keytypes nil default_sep /\
  jxpath d "//test//path[0]/" default_keytypes nil =
  jxpath d "test/path[0]" default_keytypes nil.
Proof.
  assert (Hf : Forall separator_free [""; ""; "test"; ""; "path[0]"; ""])
    by (repeat constructor).
  assert (Hn : filter nonempty [""; ""; "test"; ""; "path[0]"; ""] <> [])
    by discriminate.
  split; [exact Hf|]. split; [exact Hn|].
  exact (empty_elements_are_skipped d default_keytypes nil _ Hf Hn).
Defined.

Lemma run_elems_all_empty (source : value) (keytypes : list keytype) (null obj : value)
    (n : nat) :
  run_elems source keytypes null obj (repeat EmptyString n) = Normal obj.
Proof. induction n as [|n IH]; [reflexivity|exact IH]. Qed.

Lemma repeat_empty_separator_free (n : nat) :
  Forall separator_free (repeat EmptyString n).
Proof. induction n; constructor; [now split|assumption]. Qed.

(** X6: a path made of separators only is not the empty path: it
    returns the sentinel, not the tree ([jxpath]: the module's [nil]). *)
Theorem separators_only_path_returns_sentinel
    (source : value) (keytypes : list keytype) (null : value) (n : nat) :
  jpath source (String.concat "->" (repeat EmptyString (S (S n)))) keytypes null
        default_sep = Ok null /\
  jxpath source (String.concat "/" (repeat EmptyString (S (S n)))) keytypes null
    = Ok nil /\
  jpath source "->" keytypes null default_sep = Ok null /\
  jpath source "->->" keytypes null default_sep = Ok null /\
  jxpath source "//" keytypes null = Ok nil.
Proof.
  assert (Hne : forall sep, nonempty sep = true ->
            nonempty (String.concat sep (repeat EmptyString (S (S n)))) = true).
  { intros sep Hsep. now rewrite (nonempty_concat _ _ Hsep). }
  unfold jxpath, jpath, default_sep.
  rewrite (Hne "->" eq_refl), (Hne "/" eq_refl). cbn [py_split].
  rewrite (split_arrow_joined _ (repeat_empty_separator_free _) (Hne "->" eq_refl)).
  rewrite (split_slash_joined _ (repeat_empty_separator_free _) (Hne "/" eq_refl)).
  rewrite !run_elems_all_empty. repeat split.
Qed.

(** X7: a leading separator is ignored in front of any non-empty path,
    so the XPath prefixes ["/"] and ["//"] are harmless. *)
Theorem leading_separator_is_ignored
    (source : value) (path : string) (keytypes : list keytype) (null : value) :
  nonempty path = true ->
  jpath source ("->" ++ path) keytypes null default_sep =
  jpath source path keytypes null default_sep /\
  jxpath source ("/" ++ path) keytypes null = jxpath source path keytypes null /\
  jxpath source ("//" ++ path) keytypes null = jxpath source path keytypes null.
Proof.
  intros H. unfold jxpath, jpath, default_sep. rewrite H. repeat split.
Qed.

Lemma leading_separator_is_ignored_witness :
  nonempty "test/path[0]/to[0]" = true /\
  jxpath d "//test/path[0]/to[0]" default_keytypes nil =
  jxpath d "test/path[0]/to[0]" default_keytypes nil.
Proof.
  split; [reflexivity|].
  exact (proj2 (proj2 (leading_separator_is_ignored d "test/path[0]/to[0]"
                         default_keytypes nil eq_refl))).
Defined.

(** ** Subscripting a scalar *)

Lemma group_len_shape (s : string) (n : nat) :
  group_len s = S n ->
  (2 <= n)%nat /\
  exists c r, s = String "[" (String c r) /\ is_bracket c = false.
Proof.
  unfold group_len. cbv zeta. destruct s as [|b [|c r]]; try discriminate.
  destruct (Ascii.eqb_spec b "["); [subst b|discriminate]. cbn [negb].
  destruct (is_digit c) eqn:Hd.
  - destruct (head_is "]" _); [|discriminate]. intros H. split; [lia|].
    exists c, r. split; [reflexivity|].
    apply key_char_not_bracket, digit_is_key_char, Hd.
  - destruct (is_quote c) eqn:Hq; [|discriminate].
    destruct (string_drop _ r) as [|q rest]; [discriminate|].
    destruct (Ascii.eqb q c && head_is "]" rest); [|discriminate].
    intros H. split; [lia|]. exists c, r. split; [reflexivity|].
    apply quote_not_bracket, Hq.
Qed.

Lemma run_len_shape (s : string) (n : nat) :
  run_len s = S n ->
  (2 <= n)%nat /\
  exists c r, s = String "[" (String c r) /\ is_bracket c = false.
Proof.
  rewrite run_len_unfold. destruct (group_len s) as [|m] eqn:Hg; [discriminate|].
  intros H. cbv beta iota zeta in H.
  destruct (group_len_shape _ _ Hg) as [Hm Hs]. split; [lia|exact Hs].
Qed.

Lemma push_tokens_nonempty (c : ascii) (l : list string) :
  filter nonempty (push c l) <> [].
Proof. destruct l; discriminate. Qed.

(** What [subscript_re] finds always holds a token. *)
Lemma search_tokens_nonempty (elem g : string) :
  subscript_search elem = Some g -> subscript_tokens g <> [].
Proof.
  induction elem as [|x s IH]; [discriminate|]. cbn [subscript_search].
  destruct (run_len (String x s)) as [|n] eqn:Hr; [exact IH|].
  destruct (run_len_shape _ _ Hr) as [Hn (c & r & Hs & Hc)].
  intros H. injection H as <-. injection Hs as -> ->.
  destruct n as [|n]; [lia|]. unfold subscript_tokens.
  cbn [string_take brackets_split]. replace (is_bracket "[") with true by reflexivity.
  rewrite Hc. cbn [filter nonempty]. apply push_tokens_nonempty.
Qed.

Lemma index_scalar_string_key (obj : value) (s : string) :
  is_container obj = false -> index obj (KStr s) = Raise TypeError.
Proof. destruct obj; try discriminate; reflexivity. Qed.

(** Any element applied to a scalar cursor raises [TypeError]. *)
Lemma do_elem_on_scalar (source : value) (keytypes : list keytype) (null obj : value)
    (elem : string) :
  is_container obj = false ->
  py_eq obj null = false ->
  do_elem source keytypes null obj elem = Raised TypeError obj.
Proof.
  intros Hc Hn. unfold do_elem.
  assert (Hcur : cursor source null obj = obj) by (unfold cursor; now rewrite Hn).
  rewrite Hcur, Hc. cbn [negb].
  destruct (subscript_search elem) as [g|] eqn:Hs; [|reflexivity].
  destruct (nonempty (subscript_sub elem)).
  - now rewrite (index_scalar_string_key _ _ Hc).
  - pose proof (search_tokens_nonempty _ _ Hs) as Ht.
    destruct (subscript_tokens g) as [|t ts]; [congruence|].
    cbn [apply_subscripts]. now rewrite Hc.
Qed.

(** C9: a stored [None] is returned as it is and is never taken for the
    sentinel.  For every tree and every well-formed path whose plain
    reading [source[k1][k2]...] ends on a stored [None], [jpath] returns
    that [None], which neither is nor [==] the sentinel (a list or a
    dictionary, as the default is).  A [None] cursor turns into the
    sentinel only through a failure: any further element raises
    [TypeError] on it.  In the tree of the specification and in the
    module's own [d] the path ["test->inner"] returns [None], not the
    default sentinel. *)
Theorem stored_none_is_returned
    (source null : value) (keytypes : list keytype) (es : list element)
    (elem : string) :
  py_eq null null = true ->
  is_container null = true ->
  es <> [] ->
  forallb elem_ok es = true ->
  access null true source (path_steps es) = Some VNone ->
  jpath source (String.concat "->" (map elem_text es)) default_keytypes null
        default_sep = Ok VNone /\
  index_path source (map step_key (path_steps es)) = Ok VNone /\
  VNone <> null /\
  py_eq VNone null = false /\
  do_elem source keytypes null VNone elem = Raised TypeError VNone /\
  jpath spec_d "test->inner" default_keytypes nil default_sep = Ok VNone /\
  jpath d "test->inner" default_keytypes nil default_sep = Ok VNone /\
  index_path spec_d [KStr "test"; KStr "inner"] = Ok VNone /\
  VNone <> nil /\
  py_eq VNone nil = false /\
  py_eq nil VNone = false.
Proof.
  intros Hnull Hcont Hne Hok Hacc.
  assert (Hdiff : py_eq VNone null = false)
    by (destruct null; try discriminate Hcont; reflexivity).
  split; [exact (proj1 (jpath_reads_path source null es VNone Hnull Hcont Hne Hok Hacc))|].
  split; [eapply access_is_index_path; eauto|].
  split; [intros E; rewrite <- E in Hcont; discriminate|].
  split; [exact Hdiff|].
  split; [now apply do_elem_on_scalar|].
  vm_compute. repeat split. discriminate.
Qed.

Lemma stored_none_is_returned_witness :
  let es := [Name "test"; Name "inner"] in
  py_eq nil nil = true /\ is_container nil = true /\ es <> [] /\
  forallb elem_ok es = true /\
  access nil true d (path_steps es) = Some VNone /\
  jpath d "test->inner" default_keytypes nil default_sep = Ok VNone /\
  VNone <> nil /\
  do_elem d default_keytypes nil VNone "x" = Raised TypeError VNone.
Proof.
  intros es.
  assert (Hne : es <> []) by discriminate.
  do 2 (split; [reflexivity|]). split; [exact Hne|]. do 2 (split; [reflexivity|]).
  destruct (stored_none_is_returned d nil default_keytypes es "x"
              eq_refl eq_refl Hne eq_refl eq_refl)
    as (H1 & _ & H3 & _ & H5 & _).
  split; [exact H1|]. split; [exact H3|exact H5].
Defined.



(** ** Brackets that are no subscript *)

Lemma search_no_open (s : string) :
  string_forallb (fun c => negb (Ascii.eqb c "[")) s = true ->
  subscript_search s = None.
Proof.
  induction s as [|c s IH]; intros H; [reflexivity|].
  cbn [string_forallb] in H. apply andb_true_iff in H as [Hc Hs].
  apply negb_true_iff in Hc. cbn [subscript_search].
  now rewrite (run_len_no_open _ _ Hc), (IH Hs).
Qed.

Lemma words_no_open (s : string) :
  string_forallb is_word s = true ->
  string_forallb (fun c => negb (Ascii.eqb c "[")) s = true.
Proof. apply forallb_weaken. intros c H. now rewrite (word_not_open _ H). Qed.

Lemma ident_start_not_digit_quote (c : ascii) :
  is_ident_start c = true -> is_digit c = false /\ is_quote c = false.
Proof. intros H. split; by_char c. Qed.

Lemma subscript_search_cons (c : ascii) (s : string) :
  subscript_search (String c s) =
  match run_len (String c s) with
  | O => subscript_search s
  | S n => Some (string_take (S n) (String c s))
  end.
Proof. reflexivity. Qed.

(** [name[key]] with an unquoted identifier between the brackets holds
    no subscript for [subscript_re]. *)
Lemma search_unquoted_bracket (p k : string) :
  string_forallb is_word p = true ->
  is_ident k = true ->
  subscript_search (p ++ String "[" (k ++ String "]" EmptyString)) = None.
Proof.
  intros Hp Hk. induction p as [|c p IH].
  - destruct k as [|x k]; [discriminate|]. cbn [is_ident] in Hk.
    apply andb_true_iff in Hk as [Hx Hk].
    destruct (ident_start_not_digit_quote _ Hx) as [Hd Hq].
    cbn [String.append]. rewrite subscript_search_cons, run_len_unfold.
    unfold group_len at 1. rewrite Ascii.eqb_refl, Hd, Hq. cbn [negb].
    apply search_no_open. cbn [string_forallb].
    rewrite (word_not_open _ (ident_start_is_word _ Hx)). cbn [negb andb].
    rewrite forallb_app_string, (words_no_open _ Hk). reflexivity.
  - cbn [string_forallb] in Hp. apply andb_true_iff in Hp as [Hc Hp].
    cbn [String.append subscript_search].
    now rewrite (run_len_no_open _ _ (word_not_open _ Hc)), (IH Hp).
Qed.

(** X9: a bracket around an unquoted identifier is no subscript.  With
    the default key types and a sentinel that is a list or a dictionary
    and equals itself, the element [name[key]] is looked up whole, as one
    string key of the tree; when the tree has no such key, or is no
    dictionary, the result is the sentinel. *)
Theorem unquoted_bracket_is_one_key (source null : value) (p k : string) :
  is_ident p = true ->
  is_ident k = true ->
  py_eq null null = true ->
  is_container null = true ->
  jpath source (p ++ "[" ++ k ++ "]") default_keytypes null default_sep =
  Ok match index source (KStr (p ++ "[" ++ k ++ "]")) with
     | Ok v => v
     | Raise _ => null
     end.
Proof.
  intros Hp Hk Hnull Hcont.
  change (p ++ "[" ++ k ++ "]")%string
    with (p ++ String "[" (k ++ String "]" EmptyString))%string.
  set (text := (p ++ String "[" (k ++ String "]" EmptyString))%string).
  assert (Hplain : plain text = true).
  { unfold text. rewrite plain_app, (words_plain _ (ident_words _ Hp)).
    unfold plain. cbn [string_forallb andb].
    pose proof (words_plain _ (ident_words _ Hk)) as Hw. unfold plain in Hw.
    now rewrite forallb_app_string, Hw. }
  assert (Hint : py_int text = None).
  { unfold text. destruct p as [|c p]; [discriminate|]. cbn [is_ident] in Hp.
    apply andb_true_iff in Hp as [Hc _]. now apply ident_start_not_int. }
  assert (Hne : nonempty text = true) by (unfold text; now apply nonempty_app_l).
  unfold jpath, default_sep. rewrite Hne. cbn [py_split].
  rewrite (split_arrow_single _ (proj1 (plain_separator_free _ Hplain))).
  cbn [run_elems]. rewrite Hne. unfold do_elem.
  unfold text at 1.
  rewrite (search_unquoted_bracket _ _ (ident_words _ Hp) Hk).
  fold text. rewrite Hcont. cbn [negb effective_keytypes default_keytypes fold_left].
  unfold try_keytype. cbn [convert]. rewrite Hint.
  unfold cursor. rewrite Hnull.
  destruct (index source (KStr text)) as [v|[]]; reflexivity.
Qed.

Lemma unquoted_bracket_is_one_key_witness :
  is_ident "test" = true /\ is_ident "path" = true /\
  py_eq nil nil = true /\ is_container nil = true /\
  jpath d "test[path]" default_keytypes nil default_sep = Ok nil /\
  jpath (VDict [(KStr "test[path]", VInt 5)]) "test[path]" default_keytypes nil
        default_sep = Ok (VInt 5).
Proof.
  do 4 (split; [reflexivity|]).
  split.
  - exact (unquoted_bracket_is_one_key d nil "test" "path"
             eq_refl eq_refl eq_refl eq_refl).
  - exact (unquoted_bracket_is_one_key (VDict [(KStr "test[path]", VInt 5)]) nil
             "test" "path" eq_refl eq_refl eq_refl eq_refl).
Defined.

(** * Properties of [jdson] *)

Lemma loose_access_app (null : value) (k1 : list key) :
  forall fresh x k2 v,
    loose_access null fresh x (k1 ++ k2) = Some v ->
    exists y, loose_access null fresh x k1 = Some y /\
              loose_access null (match k1 with [] => fresh | _ => false end) y k2
                = Some v.
Proof.
  induction k1 as [|k k1 IH]; intros fresh x k2 v H.
  - exists x. now split.
  - cbn [app loose_access] in H |- *.
    destruct (fresh || negb (py_eq x null)); [|discriminate].
    destruct (index x k) as [y|]; [|discriminate].
    destruct (IH _ _ _ _ H) as [z [Hz Hv]]. exists z. split; [exact Hz|].
    now destruct k1.
Qed.

Section JdsonResolution.

Variables (source : value) (null : value).
Hypothesis null_refl : py_eq null null = true.

Lemma loose_cursor (fresh : bool) (x : value) :
  (fresh = true -> x = source) ->
  fresh || negb (py_eq x null) = true ->
  cursor source null x = x.
Proof.
  intros Hx Hf. unfold cursor. destruct fresh.
  - rewrite (Hx eq_refl). now destruct (py_eq source null).
  - cbn in Hf. apply negb_true_iff in Hf. now rewrite Hf.
Qed.

Lemma jdson_apply_tokens (ts : list token) :
  forall fresh x (rest : list key) v,
    forallb token_ok ts = true ->
    (fresh = true -> x = source) ->
    loose_access null fresh x (map token_key ts ++ rest) = Some v ->
    exists y,
      Jdson.apply_subscripts source null x (map token_str ts) = Jdson.Went y /\
      loose_access null (match ts with [] => fresh | _ => false end) y rest = Some v.
Proof.
  induction ts as [|t ts IH]; intros fresh x rest v Hok Hx H.
  - exists x. now split.
  - cbn [forallb] in Hok. apply andb_true_iff in Hok as [Ht Hts].
    cbn [map app loose_access] in H.
    destruct (fresh || negb (py_eq x null)) eqn:Hf; [|discriminate].
    destruct (index x (token_key t)) as [y|] eqn:Hi; [|discriminate].
    cbn [map Jdson.apply_subscripts].
    rewrite (subscript_key_token _ Ht), (loose_cursor _ _ Hx Hf), Hi.
    destruct (IH false y rest v Hts) as [z [Hz Hv]]; [discriminate|exact H|].
    exists z. split; [exact Hz|]. now destruct ts.
Qed.

Lemma word_tokens_are_tokens (ts : list token) :
  forallb word_token_ok ts = true -> forallb token_ok ts = true.
Proof.
  induction ts as [|t ts IH]; [reflexivity|]. cbn [forallb]. intros H.
  apply andb_true_iff in H as [Ht Hts].
  now rewrite (word_token_is_token _ Ht), (IH Hts).
Qed.

(** The tokenizer of [jdson] on [name[..][..]] with word keys. *)
Lemma jdson_tokenizer (name : string) (t : token) (ts : list token) :
  string_forallb is_word name = true ->
  forallb word_token_ok (t :: ts) = true ->
  Jdson.subscript_search (name ++ tokens_text (t :: ts)) = Some (tokens_text (t :: ts)) /\
  Jdson.subscript_sub (name ++ tokens_text (t :: ts)) = name.
Proof.
  intros Hn Hts.
  exact (re_search_element Jdson.group_len jdson_group_len_needs_bracket eq_refl
           word_token_ok jdson_group_len_token name t ts Hn Hts).
Qed.

Lemma jdson_elem_is_elem (first : bool) (e : element) :
  jdson_elem_ok first e = true -> elem_ok e = true.
Proof.
  destruct e as [n|ds|n ts]; cbn [jdson_elem_ok elem_ok]; try discriminate.
  intros H. apply andb_true_iff in H as [H Hts]. apply andb_true_iff in H as [Hn _].
  rewrite Hn. destruct ts as [|t ts]; [discriminate|].
  now rewrite (word_tokens_are_tokens _ Hts).
Qed.

Lemma jdson_do_elem_access (first : bool) (obj x : value) (e : element)
    (rest : list key) (v : value) :
  cursor_stands source null first obj x ->
  jdson_elem_ok first e = true ->
  loose_access null first x (map step_key (elem_steps e) ++ rest) = Some v ->
  exists y,
    Jdson.do_elem source null obj (elem_text e) = Jdson.Went y /\
    loose_access null false y rest = Some v.
Proof.
  intros Hs Hok H. destruct e as [n|ds|n ts]; cbn [jdson_elem_ok] in Hok;
    try discriminate.
  apply andb_true_iff in Hok as [Hok Hts]. apply andb_true_iff in Hok as [Hn Hname].
  destruct ts as [|t ts]; [discriminate|].
  pose proof (word_tokens_are_tokens _ Hts) as Hts'.
  cbn [elem_steps elem_text] in *. unfold Jdson.do_elem.
  destruct (jdson_tokenizer n t ts Hn Hts) as [-> ->].
  rewrite (subscript_tokens_of_text _ Hts').
  rewrite map_app, map_map in H. cbn [step_key] in H.
  rewrite <- (map_map token_key (fun k => k)), map_id in H.
  unfold name_steps in H. unfold cursor_stands in Hs.
  destruct first.
  - destruct Hs as [-> ->]. apply negb_true_iff in Hname. rewrite Hname in H |- *.
    cbn [map app] in H. rewrite null_refl.
    destruct (jdson_apply_tokens (t :: ts) true source rest v Hts' (fun _ => eq_refl) H)
      as [y [Hy Hv]].
    exists y. now split.
  - subst obj. rewrite Hname in H |- *. cbn [map app step_key loose_access] in H.
    destruct (negb (py_eq x null)) eqn:Hx; [|discriminate]. cbn [orb] in H.
    destruct (index x (KStr n)) as [y1|] eqn:Hi; [|discriminate].
    destruct (jdson_apply_tokens (t :: ts) false y1 rest v Hts') as [y [Hy Hv]];
      [discriminate|exact H|].
    exists y. now split.
Qed.

Lemma jdson_run_elems_access (es : list element) :
  forall first obj x v,
    cursor_stands source null first obj x ->
    jdson_path_ok first es = true ->
    es <> [] ->
    loose_access null first x (path_keys es) = Some v ->
    Jdson.run_elems source null obj (map elem_text es) = Jdson.Went v.
Proof.
  induction es as [|e es IH]; intros first obj x v Hs Hok Hne H; [congruence|].
  cbn [jdson_path_ok] in Hok. apply andb_true_iff in Hok as [He Hes].
  unfold path_keys, path_steps in H. cbn [flat_map] in H. rewrite map_app in H.
  destruct (jdson_do_elem_access _ _ _ _ _ _ Hs He H) as [y [Hd Hv]].
  cbn [map Jdson.run_elems].
  rewrite (elem_text_nonempty _ (jdson_elem_is_elem _ _ He)), Hd.
  destruct es as [|e' es].
  - cbn in Hv |- *. now injection Hv as ->.
  - apply (IH false y y v); [reflexivity|exact Hes|discriminate|exact Hv].
Qed.

End JdsonResolution.

Lemma jdson_path_is_elems (es : list element) :
  forall first, jdson_path_ok first es = true -> forallb elem_ok es = true.
Proof.
  induction es as [|e es IH]; intros first H; [reflexivity|].
  cbn [jdson_path_ok forallb] in *. apply andb_true_iff in H as [He Hes].
  now rewrite (jdson_elem_is_elem _ _ He), (IH _ Hes).
Qed.

Lemma jdson_reads_path
    (source null : value) (keytypes : list keytype) (es : list element) (v : value) :
  py_eq null null = true ->
  es <> [] ->
  jdson_path_ok true es = true ->
  loose_access null true source (path_keys es) = Some v ->
  Jdson.jdson source (String.concat "->" (map elem_text es)) keytypes null = v.
Proof.
  intros Hnull Hne Hok Hacc.
  pose proof (jdson_path_is_elems _ _ Hok) as Hel.
  destruct es as [|e es]; [congruence|].
  pose proof Hel as Hel'. cbn [forallb] in Hel'.
  apply andb_true_iff in Hel' as [He _].
  unfold Jdson.jdson.
  rewrite (nonempty_concat_elems "->" e es eq_refl He).
  rewrite (split_arrow_joined _ (elems_separator_free (e :: es) Hel)
             (nonempty_concat_elems "->" e es eq_refl He)).
  rewrite (jdson_run_elems_access source null Hnull (e :: es) true null source v);
    [reflexivity|now split|exact Hok|exact Hne|exact Hacc].
Qed.

(** X10: [jdson] resolves a path that starts with a chain of subscripts
    and goes on with elements [name[..]]: when the plain reading
    [source[k1][k2]...] succeeds and no value on the way equals the
    sentinel, the call returns that reading. *)
Theorem jdson_resolves_subscript_path
    (source null : value) (keytypes : list keytype) (es : list element) (v : value) :
  py_eq null null = true ->
  es <> [] ->
  jdson_path_ok true es = true ->
  loose_access null true source (path_keys es) = Some v ->
  Jdson.jdson source (String.concat "->" (map elem_text es)) keytypes null = v /\
  index_path source (path_keys es) = Ok v.
Proof.
  intros Hnull Hne Hok Hacc. split.
  - now apply jdson_reads_path.
  - clear Hne Hok. unfold path_keys in *. revert Hacc.
    generalize (map step_key (path_steps es)) as ks. generalize true as fresh.
    generalize source as x. intros x fresh ks. revert x fresh.
    induction ks as [|k ks IH]; intros x fresh H; cbn in H |- *.
    + now injection H as ->.
    + destruct (fresh || negb (py_eq x null)); [|discriminate].
      destruct (index x k) as [y|]; [|discriminate]. eauto.
Qed.

Lemma jdson_resolves_subscript_path_witness :
  let es := [Subscripted "" [TStr "'" "test"; TStr "'" "path"; TInt "0"];
             Subscripted "to" [TInt "1"; TInt "2"]] in
  py_eq nil nil = true /\ es <> [] /\ jdson_path_ok true es = true /\
  loose_access nil true Jdson.d (path_keys es) = Some (VInt 2) /\
  Jdson.jdson Jdson.d "['test']['path'][0]->to[1][2]" default_keytypes nil = VInt 2.
Proof.
  intros es.
  assert (Hne : es <> []) by discriminate.
  split; [reflexivity|]. split; [exact Hne|]. split; [reflexivity|].
  split; [reflexivity|].
  exact (proj1 (jdson_resolves_subscript_path Jdson.d nil default_keytypes es
                  (VInt 2) eq_refl Hne eq_refl eq_refl)).
Defined.

Lemma index_value_container (source null : value) :
  is_container null = true -> exists e, index_value source null = Raise e.
Proof. destruct null; try discriminate; cbn; eauto. Qed.

(** X11: [jdson] never resolves a path whose first element has a name.
    A bare name reads the unassigned [typelist]; a name with subscripts
    subscripts the tree by the sentinel itself, which a list or a
    dictionary cannot do.  Either way the handler leaves the cursor at
    the sentinel, which is returned, whatever the tree holds. *)
Theorem jdson_named_first_element_returns_sentinel
    (source null : value) (keytypes : list keytype) (e : string) (rest : list string) :
  py_eq null null = true ->
  is_container null = true ->
  Forall separator_free (e :: rest) ->
  nonempty e = true ->
  Jdson.subscript_search e = None \/ nonempty (Jdson.subscript_sub e) = true ->
  Jdson.jdson source (String.concat "->" (e :: rest)) keytypes null = null.
Proof.
  intros Hnull Hcont Hfree He Hname.
  assert (Hne : nonempty (String.concat "->" (e :: rest)) = true).
  { apply (nonempty_concat_member "->" e); [reflexivity|now left|exact He]. }
  unfold Jdson.jdson. rewrite Hne, (split_arrow_joined _ Hfree Hne).
  cbn [Jdson.run_elems]. rewrite He. unfold Jdson.do_elem.
  destruct (Jdson.subscript_search e) as [g|] eqn:Hs; [|reflexivity].
  destruct Hname as [Hname|Hname]; [discriminate|].
  rewrite Hname, Hnull. cbn [negb].
  destruct (index_value_container source null Hcont) as [x ->]. reflexivity.
Qed.

Lemma jdson_named_first_element_returns_sentinel_witness :
  py_eq nil nil = true /\ is_container nil = true /\
  Forall separator_free ["test"; "path[0]"; "to[0]"; "object"] /\
  Forall separator_free ["test['path']"] /\
  Jdson.subscript_search "test" = None /\
  nonempty (Jdson.subscript_sub "test['path']") = true /\
  Jdson.jdson Jdson.d "test->path[0]->to[0]->object" default_keytypes nil = nil /\
  Jdson.jdson Jdson.d "test['path']" default_keytypes nil = nil.
Proof.
  assert (H1 : Forall separator_free ["test"; "path[0]"; "to[0]"; "object"])
    by (repeat constructor).
  assert (H2 : Forall separator_free ["test['path']"]) by (repeat constructor).
  do 2 (split; [reflexivity|]). split; [exact H1|]. split; [exact H2|].
  do 2 (split; [reflexivity|]). split.
  - exact (jdson_named_first_element_returns_sentinel Jdson.d nil default_keytypes
             "test" ["path[0]"; "to[0]"; "object"] eq_refl eq_refl H1 eq_refl
             (or_introl eq_refl)).
  - exact (jdson_named_first_element_returns_sentinel Jdson.d nil default_keytypes
             "test['path']" [] eq_refl eq_refl H2 eq_refl (or_intror eq_refl)).
Defined.

(** X12: [jdson] stops at the first bare name.  After a path that
    resolves to [v], an element without subscripts ends the evaluation:
    the call returns [v], and neither that element nor any later one is
    looked up. *)
Theorem jdson_stops_at_bare_name
    (source null : value) (keytypes : list keytype) (es : list element) (v : value)
    (e : string) (rest : list string) :
  py_eq null null = true ->
  es <> [] ->
  jdson_path_ok true es = true ->
  loose_access null true source (path_keys es) = Some v ->
  Forall separator_free (e :: rest) ->
  nonempty e = true ->
  Jdson.subscript_search e = None ->
  Jdson.jdson source (String.concat "->" (map elem_text es ++ e :: rest))
              keytypes null = v.
Proof.
  intros Hnull Hne Hok Hacc Hfree He Hs.
  pose proof (jdson_path_is_elems _ _ Hok) as Hel.
  assert (Hall : Forall separator_free (map elem_text es ++ e :: rest)).
  { apply Forall_app. split; [apply elems_separator_free, Hel|exact Hfree]. }
  assert (Hp : nonempty (String.concat "->" (map elem_text es ++ e :: rest)) = true).
  { apply (nonempty_concat_member "->" e); [reflexivity| |exact He].
    apply in_or_app. right. now left. }
  unfold Jdson.jdson. rewrite Hp, (split_arrow_joined _ Hall Hp).
  assert (Happ : forall l1 l2 obj,
            Jdson.run_elems source null obj (l1 ++ l2) =
            match Jdson.run_elems source null obj l1 with
            | Jdson.Went o => Jdson.run_elems source null o l2
            | Jdson.Stopped o => Jdson.Stopped o
            end).
  { induction l1 as [|a l1 IH]; intros l2 obj; [reflexivity|].
    cbn [app Jdson.run_elems]. destruct (nonempty a); [|apply IH].
    destruct (Jdson.do_elem source null obj a); [apply IH|reflexivity]. }
  rewrite Happ.
  rewrite (jdson_run_elems_access source null Hnull es true null source v);
    [|now split|exact Hok|exact Hne|exact Hacc].
  cbn [Jdson.run_elems]. rewrite He. unfold Jdson.do_elem. now rewrite Hs.
Qed.

Lemma jdson_stops_at_bare_name_witness :
  let es := [Subscripted "" [TStr "'" "test"]] in
  let tree := VDict [(KStr "test", VDict [(KStr "inner", VNone)])] in
  py_eq nil nil = true /\ es <> [] /\ jdson_path_ok true es = true /\
  loose_access nil true tree (path_keys es) = Some (VDict [(KStr "inner", VNone)]) /\
  Forall separator_free ["inner"; "x"] /\
  Jdson.subscript_search "inner" = None /\
  Jdson.jdson tree "['test']->inner->x" default_keytypes nil =
  VDict [(KStr "inner", VNone)].
Proof.
  intros es tree.
  assert (Hne : es <> []) by discriminate.
  assert (Hf : Forall separator_free ["inner"; "x"]) by (repeat constructor).
  split; [reflexivity|]. split; [exact Hne|]. do 2 (split; [reflexivity|]).
  split; [exact Hf|]. split; [reflexivity|].
  exact (jdson_stops_at_bare_name tree nil default_keytypes es
           (VDict [(KStr "inner", VNone)]) "inner" ["x"]
           eq_refl Hne eq_refl eq_refl Hf eq_refl eq_refl).
Defined.

(** ** A failing subscript: [jdson] keeps the cursor, [jpath] collapses *)

Section FailingSubscript.

Variables (source : value) (null : value).
Variables (t : token) (ts2 : list token) (y : value) (e : exn).
Hypothesis y_cursor : cursor source null y = y.
Hypothesis t_fails : index y (token_key t) = Raise e.



End FailingSubscript.



(** * More properties of [jpath] *)

(** ** A bare number on an array *)

Lemma decimal_from_nonneg (ds : string) :
  forall acc, 0 <= acc -> 0 <= decimal_from acc ds.
Proof.
  induction ds as [|c ds IH]; intros acc H; [exact H|].
  cbn [decimal_from]. apply IH. pose proof (digit_val_nonneg c). lia.
Qed.

Lemma index_list_nonneg (l : list value) (n : Z) :
  0 <= n ->
  index (VList l) (KInt n) =
  match nth_error l (Z.to_nat n) with
  | Some v => Ok v
  | None => Raise IndexError
  end.
Proof.
  intros Hn. cbn [index]. unfold seq_index.
  replace (n <? 0) with false by (symmetry; apply Z.ltb_ge; lia).
  replace (0 <=? n) with true by (symmetry; apply Z.leb_le; lia). cbn [andb].
  destruct (n <? Z.of_nat (List.length l)) eqn:Hlt; [reflexivity|].
  apply Z.ltb_ge in Hlt.
  replace (nth_error l (Z.to_nat n)) with (@None value); [reflexivity|].
  symmetry. apply nth_error_None. lia.
Qed.

(** X14: on an array a bare number is its index.  With the default key
    types and a sentinel that is a list or a dictionary and equals
    itself, the path made of one number [n] returns item [n] of the
    array, and the sentinel when the array is shorter. *)
Theorem bare_number_indexes_array (l : list value) (null : value) (ds : string) :
  is_number ds = true ->
  py_eq null null = true ->
  is_container null = true ->
  jpath (VList l) ds default_keytypes null default_sep =
  Ok match nth_error l (Z.to_nat (decimal ds)) with
     | Some v => v
     | None => null
     end.
Proof.
  intros Hd Hnull Hcont.
  assert (Hne : nonempty ds = true)
    by (unfold is_number in Hd; now apply andb_true_iff in Hd as [Hd _]).
  pose proof (proj1 (plain_separator_free _ (words_plain _ (number_words _ Hd))))
    as Harrow.
  unfold jpath, default_sep. rewrite Hne. cbn [py_split].
  rewrite (split_arrow_single _ Harrow). cbn [run_elems]. rewrite Hne.
  rewrite (do_elem_number _ _ _ _ Hd), Hcont. cbn [negb finish].
  unfold try_keytype at 2. cbn [convert].
  assert (Hcur : cursor (VList l) null null = VList l)
    by (unfold cursor; now rewrite Hnull).
  rewrite Hcur. cbn [index].
  unfold try_keytype. cbn [convert]. rewrite (py_int_number _ Hd), Hcur.
  rewrite (index_list_nonneg _ _ (decimal_from_nonneg ds 0 (Z.le_refl 0))).
  unfold decimal. now destruct (nth_error l (Z.to_nat (decimal_from 0 ds))).
Qed.

Lemma bare_number_indexes_array_witness :
  is_number "1" = true /\ is_number "9" = true /\
  py_eq nil nil = true /\ is_container nil = true /\
  jpath (VList [VInt 10; VInt 20; VInt 30]) "1" default_keytypes nil default_sep
    = Ok (VInt 20) /\
  jpath (VList [VInt 10; VInt 20; VInt 30]) "9" default_keytypes nil default_sep
    = Ok nil.
Proof.
  do 4 (split; [reflexivity|]). split.
  - exact (bare_number_indexes_array [VInt 10; VInt 20; VInt 30] nil "1"
             eq_refl eq_refl eq_refl).
  - exact (bare_number_indexes_array [VInt 10; VInt 20; VInt 30] nil "9"
             eq_refl eq_refl eq_refl).
Defined.

(** ** The two modules on a path both can read *)

Lemma access_loose (null : value) (steps : list step) :
  forall fresh x v,
    access null fresh x steps = Some v ->
    loose_access null fresh x (map step_key steps) = Some v.
Proof.
  induction steps as [|s steps IH]; intros fresh x v H; [exact H|].
  cbn [access map loose_access] in H |- *.
  destruct (is_container x); [|discriminate].
  destruct (fresh || negb (py_eq x null)); [|discriminate].
  destruct (step_fits s x); [|discriminate]. cbn [andb] in H.
  destruct (index x (step_key s)) as [y|]; [|discriminate]. now apply IH.
Qed.

(** X15: where both modules can read a path they agree.  On a path that
    starts with a chain of subscripts and goes on with elements
    [name[..]], with word keys, whose plain reading succeeds through
    lists and dictionaries that differ from the sentinel, [jdson] and
    [jpath] return the same value. *)
Theorem jdson_agrees_with_jpath
    (source null : value) (keytypes : list keytype) (es : list element) (v : value) :
  py_eq null null = true ->
  is_container null = true ->
  es <> [] ->
  jdson_path_ok true es = true ->
  access null true source (path_steps es) = Some v ->
  Jdson.jdson source (String.concat "->" (map elem_text es)) keytypes null = v /\
  jpath source (String.concat "->" (map elem_text es)) default_keytypes null
        default_sep = Ok v.
Proof.
  intros Hnull Hcont Hne Hok Hacc. split.
  - apply jdson_reads_path; auto. now apply access_loose.
  - exact (proj1 (jpath_reads_path source null es v Hnull Hcont Hne
                    (jdson_path_is_elems _ _ Hok) Hacc)).
Qed.

Lemma jdson_agrees_with_jpath_witness :
  let es := [Subscripted "" [TStr "'" "test"; TStr "'" "path"; TInt "0"];
             Subscripted "to" [TInt "1"; TInt "2"]] in
  py_eq nil nil = true /\ is_container nil = true /\ es <> [] /\
  jdson_path_ok true es = true /\
  access nil true Jdson.d (path_steps es) = Some (VInt 2) /\
  Jdson.jdson Jdson.d "['test']['path'][0]->to[1][2]" default_keytypes nil = VInt 2 /\
  jpath Jdson.d "['test']['path'][0]->to[1][2]" default_keytypes nil default_sep
    = Ok (VInt 2).
Proof.
  intros es.
  assert (Hne : es <> []) by discriminate.
  do 2 (split; [reflexivity|]). split; [exact Hne|]. do 2 (split; [reflexivity|]).
  exact (jdson_agrees_with_jpath Jdson.d nil default_keytypes es (VInt 2)
           eq_refl eq_refl Hne eq_refl eq_refl).
Defined.

(** ** Nothing but stored values and the sentinel *)

Section Stored.

Variables (source : value) (keytypes : list keytype) (null : value).
Hypothesis null_refl : py_eq null null = true.

Lemma cursor_reachable (obj : value) :
  sentinel_or_stored source null obj -> reachable source (cursor source null obj).
Proof.
  intros [->|H]; unfold cursor.
  - rewrite null_refl. constructor.
  - destruct (py_eq obj null); [constructor|exact H].
Qed.

Lemma index_cursor_stored (obj : value) (k : key) (v : value) :
  sentinel_or_stored source null obj ->
  index (cursor source null obj) k = Ok v ->
  sentinel_or_stored source null v.
Proof.
  intros H Hi. right. eapply reach_step; [apply cursor_reachable, H|exact Hi].
Qed.

Lemma try_keytype_stored (elem : string) (obj : value) (k : keytype) :
  sentinel_or_stored source null obj ->
  sentinel_or_stored source null (try_keytype source null elem obj k).
Proof.
  intros H. unfold try_keytype. destruct (convert k elem) as [key|]; [|exact H].
  destruct (index (cursor source null obj) key) as [v|[]] eqn:Hi;
    try exact H; try (now left).
  eapply index_cursor_stored; eauto.
Qed.

Lemma fold_keytypes_stored (elem : string) (ks : list keytype) :
  forall obj,
    sentinel_or_stored source null obj ->
    sentinel_or_stored source null (fold_left (try_keytype source null elem) ks obj).
Proof.
  induction ks as [|k ks IH]; intros obj H; [exact H|].
  cbn [fold_left]. apply IH, try_keytype_stored, H.
Qed.

Lemma apply_subscripts_stored (scs : list string) :
  forall obj,
    sentinel_or_stored source null obj ->
    sentinel_or_stored source null
      (finish null (apply_subscripts source null obj scs)).
Proof.
  induction scs as [|sc scs IH]; intros obj H; cbn [apply_subscripts].
  - exact H.
  - destruct (negb (is_container obj)); [now left|].
    destruct (index (cursor source null obj) (subscript_key sc)) as [v|e] eqn:Hi.
    + eapply IH, index_cursor_stored; eauto.
    + cbn [finish]. destruct (is_lookup_error e); [now left|exact H].
Qed.

Lemma do_elem_stored (obj : value) (elem : string) :
  sentinel_or_stored source null obj ->
  sentinel_or_stored source null (finish null (do_elem source keytypes null obj elem)).
Proof.
  intros H. unfold do_elem. destruct (subscript_search elem) as [g|].
  - destruct (nonempty (subscript_sub elem)).
    + destruct (index (cursor source null obj) (KStr (subscript_sub elem)))
        as [v|e] eqn:Hi.
      * eapply apply_subscripts_stored, index_cursor_stored; eauto.
      * cbn [finish]. destruct (is_lookup_error e); [now left|exact H].
    + apply apply_subscripts_stored. right. now apply cursor_reachable.
  - destruct (negb (is_container obj)); [now left|].
    cbn [finish]. now apply fold_keytypes_stored.
Qed.

Lemma run_elems_stored (elems : list string) :
  forall obj,
    sentinel_or_stored source null obj ->
    sentinel_or_stored source null (finish null (run_elems source keytypes null obj elems)).
Proof.
  induction elems as [|elem elems IH]; intros obj H; cbn [run_elems].
  - exact H.
  - destruct (nonempty elem); [|now apply IH].
    pose proof (do_elem_stored obj elem H) as Hd.
    destruct (do_elem source keytypes null obj elem) as [o|e o]; [|exact Hd].
    apply IH, Hd.
Qed.

End Stored.

(** X16: [jpath] returns nothing but the sentinel or a value stored in
    the tree: the tree itself or the result of plain subscriptions of
    it.  This holds for every path, well-formed or not, every separator
    and every list of key types. *)
Theorem jpath_returns_sentinel_or_stored
    (source : value) (path : string) (keytypes : list keytype) (null : value)
    (sep : string) (r : value) :
  py_eq null null = true ->
  jpath source path keytypes null sep = Ok r ->
  sentinel_or_stored source null r.
Proof.
  intros Hnull H. unfold jpath in H. destruct (nonempty path).
  - destruct (py_split path sep) as [elems|]; [|discriminate].
    injection H as <-. apply run_elems_stored; [exact Hnull|now left].
  - injection H as <-. right. constructor.
Qed.

Lemma jpath_returns_sentinel_or_stored_witness :
  py_eq nil nil = true /\
  jpath d "test->path[0]->to[1][2]" default_keytypes nil default_sep = Ok (VInt 2) /\
  sentinel_or_stored d nil (VInt 2).
Proof.
  do 2 (split; [reflexivity|]).
  exact (jpath_returns_sentinel_or_stored d "test->path[0]->to[1][2]"
           default_keytypes nil default_sep (VInt 2) eq_refl eq_refl).
Defined.

Section JdsonStored.

Variables (source : value) (null : value).
Hypothesis null_refl : py_eq null null = true.

Lemma index_value_stored (obj v : value) :
  index_value source obj = Ok v -> reachable source v.
Proof.
  destruct obj; cbn [index_value]; intros H; try discriminate;
    try (eapply reach_step; [constructor|exact H]).
  destruct source; discriminate.
Qed.

Lemma jdson_apply_stored (scs : list string) :
  forall obj,
    sentinel_or_stored source null obj ->
    sentinel_or_stored source null
      (Jdson.finish (Jdson.apply_subscripts source null obj scs)).
Proof.
  induction scs as [|sc scs IH]; intros obj H; cbn [Jdson.apply_subscripts].
  - exact H.
  - destruct (index (cursor source null obj) (subscript_key sc)) as [v|e] eqn:Hi.
    + eapply IH, index_cursor_stored; eauto.
    + exact H.
Qed.

Lemma jdson_do_elem_stored (obj : value) (elem : string) :
  sentinel_or_stored source null obj ->
  sentinel_or_stored source null (Jdson.finish (Jdson.do_elem source null obj elem)).
Proof.
  intros H. unfold Jdson.do_elem.
  destruct (Jdson.subscript_search elem) as [g|]; [|exact H].
  assert (Hobj : forall k v, py_eq obj null = false -> index obj k = Ok v ->
                   reachable source v).
  { intros k v Hn Hi. destruct H as [->|H]; [congruence|].
    eapply reach_step; eauto. }
  destruct (nonempty (Jdson.subscript_sub elem)).
  - destruct (py_eq obj null) eqn:Hn; cbn [negb].
    + destruct (index_value source obj) as [v|] eqn:Hi; [|exact H].
      apply jdson_apply_stored. right. eapply index_value_stored; eauto.
    + destruct (index obj (KStr (Jdson.subscript_sub elem))) as [v|] eqn:Hi;
        [|exact H].
      apply jdson_apply_stored. right. eauto.
  - destruct (py_eq obj null) eqn:Hn.
    + apply jdson_apply_stored. right. constructor.
    + destruct (index obj (KStr (Jdson.subscript_sub elem))) as [v|] eqn:Hi;
        [|exact H].
      apply jdson_apply_stored. right. eauto.
Qed.

Lemma jdson_run_elems_stored (elems : list string) :
  forall obj,
    sentinel_or_stored source null obj ->
    sentinel_or_stored source null (Jdson.finish (Jdson.run_elems source null obj elems)).
Proof.
  induction elems as [|elem elems IH]; intros obj H; cbn [Jdson.run_elems].
  - exact H.
  - destruct (nonempty elem); [|now apply IH].
    pose proof (jdson_do_elem_stored obj elem H) as Hd.
    destruct (Jdson.do_elem source null obj elem) as [o|o]; [|exact Hd].
    apply IH, Hd.
Qed.

End JdsonStored.

(** X17: [jdson] too returns nothing but the sentinel or a value stored
    in the tree, for every path. *)
Theorem jdson_returns_sentinel_or_stored
    (source : value) (path : string) (keytypes : list keytype) (null : value) :
  py_eq null null = true ->
  sentinel_or_stored source null (Jdson.jdson source path keytypes null).
Proof.
  intros Hnull. unfold Jdson.jdson. destruct (nonempty path).
  - apply jdson_run_elems_stored; [exact Hnull|now left].
  - right. constructor.
Qed.

Lemma jdson_returns_sentinel_or_stored_witness :
  py_eq nil nil = true /\
  sentinel_or_stored Jdson.d nil
    (Jdson.jdson Jdson.d "['test']['path'][0]->to[1][2]" default_keytypes nil).
Proof.
  split; [reflexivity|].
  exact (jdson_returns_sentinel_or_stored Jdson.d "['test']['path'][0]->to[1][2]"
           default_keytypes nil eq_refl).
Defined.

(** X18: a sentinel that is neither a list nor a dictionary disables
    bare names at the start of a path.  The type check of a bare element
    is made on the cursor, which is still the sentinel, so the call
    returns the sentinel whatever the tree holds under that name. *)
Theorem scalar_sentinel_rejects_leading_name
    (source : value) (keytypes : list keytype) (null : value)
    (e : string) (rest : list string) :
  is_container null = false ->
  Forall separator_free (e :: rest) ->
  nonempty e = true ->
  subscript_search e = None ->
  jpath source (String.concat "->" (e :: rest)) keytypes null default_sep = Ok null.
Proof.
  intros Hc Hfree He Hs.
  assert (Hne : nonempty (String.concat "->" (e :: rest)) = true).
  { apply (nonempty_concat_member "->" e); [reflexivity|now left|exact He]. }
  unfold jpath, default_sep. rewrite Hne. cbn [py_split].
  rewrite (split_arrow_joined _ Hfree Hne). cbn [run_elems]. rewrite He.
  unfold do_elem. now rewrite Hs, Hc.
Qed.

Lemma scalar_sentinel_rejects_leading_name_witness :
  is_container VNone = false /\
  Forall separator_free ["test"] /\
  subscript_search "test" = None /\
  index d (KStr "test") <> Raise KeyError /\
  jpath d "test" default_keytypes VNone default_sep = Ok VNone.
Proof.
  assert (Hf : Forall separator_free ["test"]) by (repeat constructor).
  split; [reflexivity|]. split; [exact Hf|]. split; [reflexivity|].
  split; [discriminate|].
  exact (scalar_sentinel_rejects_leading_name d default_keytypes VNone "test" []
           eq_refl Hf eq_refl eq_refl).
Defined.

(** The links of the module [jdson], as the model reads them: the links
    that start with a name come back as the sentinel, the chains of
    subscripts resolve. *)
Lemma jdson_testlinks_results :
  map (fun l => Jdson.jdson (fst l) (snd l) default_keytypes nil) Jdson.testlinks =
  [ nil; nil; nil; nil; nil;
    VInt 1;
    VDict [(KStr "object", VInt 1)];
    VList [VDict [(KStr "object", VInt 1)]; VList [VInt 0; VInt 1; VInt 2]];
    VInt 2;
    nil; nil; nil ].
Proof. vm_compute. reflexivity. Qed.

(** * Every path without ["/"] is the join of its elements *)

Lemma split_go_nonempty (sep : string) (s : string) :
  forall k, split_go sep k s <> [].
Proof.
  induction s as [|c s IH]; intros k; cbn [split_go]; [discriminate|].
  destruct k; [|apply IH].
  destruct (is_prefix sep (String c s)); [discriminate|].
  unfold push. destruct (split_go sep 0 s); discriminate.
Qed.

Lemma is_prefix_arrow (c : ascii) (s : string) :
  is_prefix "->" (String c s) = true -> c = "-"%char /\ exists r, s = String ">" r.
Proof.
  cbn [is_prefix]. intros H. apply andb_true_iff in H as [Hc Hs].
  apply Ascii.eqb_eq in Hc. split; [now subst|].
  destruct s as [|x r]; [discriminate|]. cbn [is_prefix] in Hs.
  apply andb_true_iff in Hs as [Hx _]. apply Ascii.eqb_eq in Hx. subst. eauto.
Qed.

Lemma split_go_cons (sep : string) (c : ascii) (s : string) :
  split_go sep 0 (String c s) =
  if is_prefix sep (String c s)
  then EmptyString :: split_go sep (String.length sep - 1) s
  else push c (split_go sep 0 s).
Proof. reflexivity. Qed.

(** The three moves of [split] with the separator ["->"]. *)
Lemma split_arrow_ind (P : string -> list string -> Prop) :
  P EmptyString [EmptyString] ->
  (forall s l, P s l -> l <> [] -> P ("->" ++ s)%string (EmptyString :: l)) ->
  (forall c s l, P s l -> l <> [] -> is_prefix "->" (String c s) = false ->
     P (String c s) (push c l)) ->
  forall s, P s (split_go "->" 0 s).
Proof.
  intros H0 Hsep Hchar s.
  enough (H : P s (split_go "->" 0 s) /\
              forall c, P (String c s) (split_go "->" 0 (String c s))) by apply H.
  induction s as [|a s [IH1 IH2]].
  - split; [exact H0|]. intros c. rewrite split_go_cons.
    destruct (is_prefix "->" (String c EmptyString)) eqn:Hp.
    + apply is_prefix_arrow in Hp as [_ [r Hr]]. discriminate.
    + apply Hchar; [exact H0|discriminate|exact Hp].
  - split; [apply IH2|]. intros c. rewrite split_go_cons.
    destruct (is_prefix "->" (String c (String a s))) eqn:Hp.
    + destruct (is_prefix_arrow _ _ Hp) as [-> [r Hr]]. injection Hr as -> <-.
      change (split_go "->" (String.length "->" - 1) (String ">" s))
        with (split_go "->" 0 s).
      apply (Hsep s _ IH1), split_go_nonempty.
    + apply Hchar; [apply IH2|apply split_go_nonempty|exact Hp].
Qed.

Lemma concat_push (sep : string) (c : ascii) (l : list string) :
  l <> [] -> String.concat sep (push c l) = String c (String.concat sep l).
Proof. destruct l as [|h [|h' t]]; [congruence| |]; reflexivity. Qed.

Lemma concat_empty_head (sep : string) (l : list string) :
  l <> [] -> String.concat sep (EmptyString :: l) = (sep ++ String.concat sep l)%string.
Proof. destruct l; [congruence|reflexivity]. Qed.

(** Joining the elements gives the path back. *)
Lemma join_split_arrow (p : string) :
  String.concat "->" (split_go "->" 0 p) = p.
Proof.
  apply (split_arrow_ind (fun s l => String.concat "->" l = s)).
  - reflexivity.
  - intros s l H Hl. now rewrite (concat_empty_head _ _ Hl), H.
  - intros c s l H Hl _. now rewrite (concat_push _ _ _ Hl), H.
Qed.

(** An element starts like the text it was cut from. *)
Lemma split_head_start (p : string) :
  match split_go "->" 0 p with
  | String x _ :: _ => exists r, p = String x r
  | _ => True
  end.
Proof.
  apply (split_arrow_ind (fun s l =>
           match l with String x _ :: _ => exists r, s = String x r | _ => True end)).
  - exact I.
  - intros; exact I.
  - intros c s l _ Hl _. destruct l; [congruence|]. cbn. eauto.
Qed.

(** No element holds the separator. *)
Lemma split_elements_arrow_free (p : string) :
  Forall (fun e => contains "->" e = false) (split_go "->" 0 p).
Proof.
  apply (split_arrow_ind (fun s l =>
           Forall (fun e => contains "->" e = false) l /\
           match l with String x _ :: _ => exists r, s = String x r | _ => True end)).
  - split; [repeat constructor|exact I].
  - intros s l [H _] _. split; [constructor; [reflexivity|exact H]|exact I].
  - intros c s l [H Hhd] Hl Hp. destruct l as [|h t]; [congruence|].
    cbn [push]. split; [|eauto].
    inversion H as [|? ? Hh Ht]; subst. constructor; [|exact Ht].
    cbn [contains]. rewrite Hh, orb_false_r.
    destruct h as [|x h]; [cbn; now rewrite andb_false_r|].
    destruct Hhd as [r ->]. cbn [is_prefix] in Hp |- *.
    destruct (Ascii.eqb "-" c); [|reflexivity]. cbn [andb] in *.
    destruct (Ascii.eqb ">" x); [discriminate|reflexivity].
Qed.

(** The elements hold only characters of the path. *)
Lemma split_elements_chars (q : ascii -> bool) (p : string) :
  string_forallb q p = true ->
  Forall (fun e => string_forallb q e = true) (split_go "->" 0 p).
Proof.
  apply (split_arrow_ind (fun s l =>
           string_forallb q s = true ->
           Forall (fun e => string_forallb q e = true) l)).
  - intros _. repeat constructor.
  - intros s l IH _ H. cbn in H.
    apply andb_true_iff in H as [_ H]. apply andb_true_iff in H as [_ H].
    constructor; [reflexivity|now apply IH].
  - intros c s l IH Hl _ H. cbn [string_forallb] in H.
    apply andb_true_iff in H as [Hc Hs].
    destruct l as [|h t]; [congruence|]. cbn [push].
    pose proof (IH Hs) as Hf. inversion Hf as [|? ? Hh Ht]; subst.
    constructor; [cbn; now rewrite Hc, Hh|exact Ht].
Qed.

Lemma no_slash_is_slash_free (s : string) :
  contains "/" s = false -> slash_free s = true.
Proof.
  unfold slash_free. induction s as [|c s IH]; intros H; [reflexivity|].
  cbn [contains is_prefix] in H. apply orb_false_iff in H as [Hc Hs].
  rewrite andb_true_r in Hc. cbn [string_forallb]. now rewrite Hc, (IH Hs).
Qed.

Lemma slash_free_no_slash (s : string) :
  slash_free s = true -> contains "/" s = false.
Proof.
  unfold slash_free. induction s as [|c s IH]; intros H; [reflexivity|].
  cbn [string_forallb] in H. apply andb_true_iff in H as [Hc Hs].
  apply negb_true_iff in Hc. cbn [contains is_prefix].
  now rewrite Hc, (IH Hs).
Qed.

(** A path without ["/"] is the join of separator-free elements, so the
    equivalence of the two dialects covers every such path: rewriting a
    path for [jxpath] is joining these elements with ["/"]. *)
Lemma slash_free_path_elements (p : string) :
  contains "/" p = false ->
  Forall separator_free (split_go "->" 0 p) /\
  String.concat "->" (split_go "->" 0 p) = p.
Proof.
  intros H. split; [|apply join_split_arrow].
  pose proof (split_elements_arrow_free p) as Ha.
  pose proof (split_elements_chars _ p (no_slash_is_slash_free _ H)) as Hs.
  revert Ha Hs. generalize (split_go "->" 0 p) as l.
  induction l as [|e l IH]; intros Ha Hs; [constructor|].
  inversion Ha; inversion Hs; subst.
  constructor; [split; [assumption|now apply slash_free_no_slash]|now apply IH].
Qed.

Lemma slash_free_path_equivalence (source : value) (p : string) :
  contains "/" p = false ->
  jpath source p default_keytypes nil default_sep =
  jxpath source (String.concat "/" (split_go "->" 0 p)) default_keytypes nil.
Proof.
  intros H. destruct (slash_free_path_elements p H) as [Hf Hj].
  unfold jxpath, jpath, default_sep. cbn [py_split].
  assert (Hn : nonempty p = nonempty (String.concat "->" (split_go "->" 0 p)))
    by now rewrite Hj.
  rewrite Hn, !nonempty_concat by reflexivity.
  destruct (split_go "->" 0 p) as [|e es]; [reflexivity|].
  now rewrite (split_slash_concat _ _ Hf).
Qed.
